(** * apollo-graphl-github-analysis: the aggregation resolver of [src/app.js]

    A shallow embedding of the tree walk ([countBlobFiles]), of the
    per-repository assembly chain ([fetchSingleRepositoryData]) and of the two
    resolvers ([listRepositories], [fetchRepositoriesDetails]), followed by
    the properties the specification states about them. *)

From Stdlib Require Import ZArith String Ascii Bool Lia List Permutation.
Import ListNotations.
From Equations Require Import Equations.

Set Warnings "-register-all".

Local Open Scope string_scope.
Local Open Scope Z_scope.

(** ** JavaScript strings *)

Module JsString.

(** [s.length] *)
Definition len (s : string) : Z := Z.of_nat (String.length s).

(** The scan behind [s.lastIndexOf(c)]: [i] is the index of the head of
    [s], [found] the last index seen so far. *)
Fixpoint lastIndexOf_from (c : ascii) (s : string) (i found : Z) : Z :=
  match s with
  | EmptyString => found
  | String a s' =>
      lastIndexOf_from c s' (i + 1) (if Ascii.eqb a c then i else found)
  end.

(** [s.lastIndexOf(c)] for a one-character needle: -1 when absent. *)
Definition lastIndexOf (c : ascii) (s : string) : Z :=
  lastIndexOf_from c s 0 (-1).

Fixpoint drop (n : nat) (s : string) : string :=
  match n, s with
  | O, _ => s
  | S _, EmptyString => EmptyString
  | S n', String _ s' => drop n' s'
  end.

(** [s.slice(start)]: a negative [start] counts from the end, and both
    directions are clamped to the string. *)
Definition slice (start : Z) (s : string) : string :=
  let from := if start <? 0 then Z.max (len s + start) 0 else start in
  drop (Z.to_nat from) s.

(** Truthiness of a string: only the empty string is falsy. *)
Definition truthy (s : string) : bool :=
  match s with EmptyString => false | String _ _ => true end.

(** The character ['.'] does not occur in [s]. *)
Fixpoint no_dot (s : string) : bool :=
  match s with
  | EmptyString => true
  | String a s' => negb (Ascii.eqb a ".") && no_dot s'
  end.

End JsString.

(** ** The tree returned by the file-details query *)

(** One element of [entries]: the selected fields [name], [type], [path] and
    [object]; [object] is absent on the innermost level of the query and null
    for an entry that has no git object, and an object that is not a tree
    carries no [entries]. *)
Inductive TreeEntry : Type :=
  Entry (type name path : string) (object : option GitObject)
with GitObject : Type :=
  Object (entries : option (list TreeEntry)).

Definition type (e : TreeEntry) : string := let 'Entry t _ _ _ := e in t.
Definition name (e : TreeEntry) : string := let 'Entry _ n _ _ := e in n.
Definition path (e : TreeEntry) : string := let 'Entry _ _ p _ := e in p.
Definition object (e : TreeEntry) : option GitObject :=
  let 'Entry _ _ _ o := e in o.
Definition entries (o : GitObject) : option (list TreeEntry) :=
  let 'Object es := o in es.

(** [entry?.object?.entries] *)
Definition object_entries (e : TreeEntry) : option (list TreeEntry) :=
  match object e with
  | Some o => entries o
  | None => None
  end.

(** ** The tree walk of [fetchSingleRepositoryData] *)

Section TreeWalk.

(** The [fileType] argument of the enclosing call. *)
Variable fileType : string.

(** [entryName.slice(entryName.lastIndexOf(".") + 1)] *)
Definition extension (entryName : string) : string :=
  let lastDotIndex := JsString.lastIndexOf "." entryName in
  JsString.slice (lastDotIndex + 1) entryName.

(** The body of the ["blob"] branch: the update of the captured variable
    [fileTypePath]. *)
Definition visit_blob (e : TreeEntry) (fileTypePath : string) : string :=
  if (extension (name e) =? fileType)%string
     && negb (JsString.truthy fileTypePath)
  then path e
  else fileTypePath.

(** [countBlobFiles(entry)].  The closure reads and writes the variable
    [fileTypePath] of the enclosing function, which is threaded through
    here: the result pairs the returned number with the new value of the
    variable.  [reduce] is a left fold from 0. *)
Fixpoint countBlobFiles (e : TreeEntry) (fileTypePath : string)
  {struct e} : Z * string :=
  match e with
  | Entry ty _ _ obj =>
      if (ty =? "blob")%string then (1, visit_blob e fileTypePath)
      else if (ty =? "tree")%string then
        match obj with
        | Some (Object (Some subEntries)) =>
            fold_left
              (fun acc subEntry =>
                 let '(n, p) := countBlobFiles subEntry (snd acc) in
                 (fst acc + n, p))
              subEntries (0, fileTypePath)
        | _ => (0, fileTypePath)
        end
      else (0, fileTypePath)
  end.

(** One step of a [reduce((sum, entry) => sum + countBlobFiles(entry), _)]. *)
Definition reduce_step (acc : Z * string) (e : TreeEntry) : Z * string :=
  let '(n, p) := countBlobFiles e (snd acc) in (fst acc + n, p).

(** [entries.reduce((sum, entry) => sum + countBlobFiles(entry), 0)],
    started with [fileTypePath] as the captured variable. *)
Definition count_entries (es : list TreeEntry) (fileTypePath : string)
  : Z * string :=
  fold_left reduce_step es (0, fileTypePath).

End TreeWalk.

(** ** Promises as their settled outcome *)

(** What a rejected promise carries: an error of the upstream transport or
    response, or the [TypeError] of a property read on [null]/[undefined]. *)
Inductive error : Type :=
| UpstreamError (what : string)
| TypeError (what : string).

(** The outcome of an [async] function: the promise is fulfilled with a value
    or rejected with an error. *)
Inductive result (A : Type) : Type :=
| Fulfilled (value : A)
| Rejected (reason : error).

Arguments Fulfilled {A} value.
Arguments Rejected {A} reason.

(** [await p] followed by the rest of the function body. *)
Definition await {A B : Type} (p : result A) (k : A -> result B) : result B :=
  match p with
  | Fulfilled v => k v
  | Rejected e => Rejected e
  end.

Declare Scope async_scope.
Delimit Scope async_scope with async.
Notation "x <- p ;; k" := (await p (fun x => k))
  (at level 61, p at next level, right associativity) : async_scope.
Local Open Scope async_scope.

Definition is_rejected {A : Type} (p : result A) : bool :=
  match p with Rejected _ => true | Fulfilled _ => false end.

(** ** The upstream responses *)

(** A decoded JSON value, as [Response.json()] yields it. *)
Inductive json : Type :=
| JNull
| JBool (b : bool)
| JNumber (n : Z)
| JString (s : string)
| JArray (items : list json)
| JObject (fields : list (string * json)).

Record Owner : Type := { login : string }.

(** A node of [viewer.repositories.nodes]. *)
Record RepositoryNode : Type :=
  { node_name : string;
    node_diskUsage : Z;
    node_owner : Owner }.

(** [viewer.repository] of the file-details query. *)
Record Repository : Type :=
  { repo_id : string;
    repo_name : string;
    repo_owner : Owner;
    repo_diskUsage : Z;
    repo_visibility : string;
    repo_object : option GitObject }.

(** [viewer.repository] of the file-content query: [object] is null when the
    expression does not resolve, and [text] is absent unless it is a blob. *)
Record Blob : Type := { text : option string }.
Record ContentRepository : Type := { content_object : option Blob }.

(** The external service, one field per request the program sends.  The
    argument of [viewer_repositories_last] is the value of the [last:]
    argument of the connection; [repository] is null in the two repository
    queries when the service has no repository to show. *)
Record Upstream : Type :=
  { viewer_repositories_last : nat -> result (list RepositoryNode);
    file_details : string -> result (option Repository);
    hooks : string -> string -> result json;
    file_content : string -> string -> result (option ContentRepository) }.

(** The query result of [fetchSingleRepositoryData] after the three fields
    were added to it; [None] is [undefined]. *)
Record Response : Type :=
  { data_viewer_repository : option Repository;
    numberOfFiles : option Z;
    activeWebhooks : json;
    contentOfSpecificFile : option string }.

(** The record the resolver builds for one repository. *)
Record RepositoryDetails : Type :=
  { details_name : string;
    details_visibility : string;
    details_size : Z;
    details_owner : string;
    details_numberOfFiles : option Z;
    details_fileContent : option string;
    details_activeWebhooks : json }.

(** The record the resolver builds for one listed repository. *)
Record RepositorySummary : Type :=
  { summary_name : string;
    summary_owner : string;
    summary_size : Z }.

(** ** class GitHubAPI *)

Section GitHubAPI.

Variable upstream : Upstream.

(** [getActiveWebhooks(owner, repoName)] *)
Definition getActiveWebhooks (owner repoName : string) : result json :=
  hooks upstream owner repoName.

(** [listRepositories()]: the query asks for [repositories(last: 100)]. *)
Definition api_listRepositories : result (list RepositoryNode) :=
  viewer_repositories_last upstream 100.

(** [response.data.viewer.repository.object?.entries.reduce(...)] together
    with the value the walk leaves in [fileTypePath].  Reading [.object] of
    a null repository throws; a null [object] short-circuits the rest of
    the chain to [undefined]; [.reduce] of absent [entries] throws. *)
Definition count_root (fileType : string) (repository : option Repository)
  (fileTypePath : string) : result (option Z * string) :=
  match repository with
  | None => Rejected (TypeError "repository.object")
  | Some repo =>
      match repo_object repo with
      | None => Fulfilled (None, fileTypePath)
      | Some o =>
          match entries o with
          | None => Rejected (TypeError "entries.reduce")
          | Some es =>
              let '(n, p) := count_entries fileType es fileTypePath in
              Fulfilled (Some n, p)
          end
      end
  end.

(** [(...)?.data.viewer.repository.object?.text] *)
Definition content_text (repository : option ContentRepository)
  : result (option string) :=
  match repository with
  | None => Rejected (TypeError "repository.object")
  | Some repo =>
      Fulfilled match content_object repo with
                | None => None
                | Some b => text b
                end
  end.

(** [fetchSingleRepositoryData(repoName, fileType, owner)] *)
Definition fetchSingleRepositoryData (repoName fileType owner : string)
  : result Response :=
  response <- file_details upstream repoName ;;
  let fileTypePath := "" in
  counted <- count_root fileType response fileTypePath ;;
  let '(files, fileTypePath) := counted in
  webhooks <- getActiveWebhooks owner repoName ;;
  content <- file_content upstream repoName fileTypePath ;;
  contentOfSpecificFile <- content_text content ;;
  Fulfilled {| data_viewer_repository := response;
               numberOfFiles := files;
               activeWebhooks := webhooks;
               contentOfSpecificFile := contentOfSpecificFile |}.

End GitHubAPI.

(** ** The resolvers *)

(** [Promise.all([promises[i], promises[i + 1]])].  A slot is [None] when the
    index is past the end of the array: [undefined] is not a promise and
    resolves to itself.  When both promises reject, the array promise takes
    the reason of the one that rejected first in time; [second_first] says
    that it was the second one.  This is the array promise of two promises
    that are still pending when [Promise.all] subscribes to them; a promise
    that rejected before is the matter of [loop_in_time] below. *)
Definition promise_all_pair (second_first : bool)
  (first second : option (result Response))
  : result (list (option Response)) :=
  match first, second with
  | Some (Rejected e1), Some (Rejected e2) =>
      Rejected (if second_first then e2 else e1)
  | Some (Rejected e1), _ => Rejected e1
  | _, Some (Rejected e2) => Rejected e2
  | Some (Fulfilled a), Some (Fulfilled b) => Fulfilled [Some a; Some b]
  | Some (Fulfilled a), None => Fulfilled [Some a; None]
  | None, Some (Fulfilled b) => Fulfilled [None; Some b]
  | None, None => Fulfilled [None; None]
  end.

Section FetchRepositoriesDetails.

(** The order in which two rejecting promises of one pair reject, by the
    index of the pair; [loop_in_time] below reads it off the instants at
    which the promises settle. *)
Variable race : nat -> bool.

(** The [for] loop of [runMultiplePromiseAllInLoop], from index [i] on with
    [results] collected so far, as a function of the settled outcomes of the
    promises: what the loop settles with when every rejection finds the
    handler of its pair.  A rejection that comes before the loop subscribes
    to its pair finds none; [loop_in_time] below adds the instants and that
    case. *)
Equations? loop (promises : list (result Response)) (i : nat)
  (results : list (list (option Response)))
  : result (list (list (option Response)))
  by wf (List.length promises - i)%nat lt :=
  loop promises i results with lt_dec i (List.length promises) := {
    | left _ =>
        match promise_all_pair (race i) (nth_error promises i)
                (nth_error promises (i + 1)) with
        | Fulfilled both => loop promises (i + 2) (results ++ [both])%list
        | Rejected e => Rejected e
        end
    | right _ => Fulfilled results }.
Proof. lia. Qed.

(** [runMultiplePromiseAllInLoop(promises)] *)
Definition runMultiplePromiseAllInLoop (promises : list (result Response))
  : result (list (list (option Response))) :=
  loop promises 0 [].

(** [data => data]: a response object is truthy, [undefined] is not. *)
Definition truthy_data (data : option Response) : bool :=
  match data with Some _ => true | None => false end.

(** The callback of the final [map]; [None] is the [undefined] it returns
    for a falsy [data].  Reading [repo.name] of a null [repo] throws. *)
Definition to_details (data : option Response)
  : result (option RepositoryDetails) :=
  match data with
  | Some d =>
      match data_viewer_repository d with
      | Some repo =>
          Fulfilled (Some {| details_name := repo_name repo;
                             details_visibility := repo_visibility repo;
                             details_size := repo_diskUsage repo;
                             details_owner := login (repo_owner repo);
                             details_numberOfFiles := numberOfFiles d;
                             details_fileContent := contentOfSpecificFile d;
                             details_activeWebhooks := activeWebhooks d |})
      | None => Rejected (TypeError "repo.name")
      end
  | None => Fulfilled None
  end.

(** [array.map(f)] for a callback that may throw: the first exception ends
    the iteration. *)
Fixpoint map_throwing {A B : Type} (f : A -> result B) (l : list A)
  : result (list B) :=
  match l with
  | [] => Fulfilled []
  | x :: l' =>
      y <- f x ;;
      ys <- map_throwing f l' ;;
      Fulfilled (y :: ys)
  end.

Variable upstream : Upstream.

(** The promises of [fetchRepositoriesDetails], one per name, all started
    before the first is awaited. *)
Definition start_all (repoNames : list string) (fileType owner : string)
  : list (result Response) :=
  map (fun repoName =>
         fetchSingleRepositoryData upstream repoName fileType owner)
    repoNames.

(** [resolvers.Query.fetchRepositoriesDetails] *)
Definition fetchRepositoriesDetails (repoNames : list string)
  (fileType owner : string) : result (list (option RepositoryDetails)) :=
  let promises := start_all repoNames fileType owner in
  batches <- runMultiplePromiseAllInLoop promises ;;
  let result := List.concat batches in
  map_throwing to_details (filter truthy_data result).

(** [resolvers.Query.listRepositories] *)
Definition listRepositories : result (list RepositorySummary) :=
  repositoryData <- api_listRepositories upstream ;;
  Fulfilled
    (map (fun data => {| summary_name := node_name data;
                         summary_owner := login (node_owner data);
                         summary_size := node_diskUsage data |})
       repositoryData).

End FetchRepositoriesDetails.

(** ** The specification's reading of the tree walk

    [countFiles] and [findFirstPathOfType] are written after the words of the
    specification, to be compared with the walk of the source. *)

Definition sumZ (l : list Z) : Z := fold_right Z.add 0 l.

(** 1 for a file entry, the count of the expanded children for a directory
    entry that carries them, 0 for a directory entry without them. *)
Fixpoint countFiles_entry (e : TreeEntry) : Z :=
  match e with
  | Entry ty _ _ obj =>
      if (ty =? "blob")%string then 1
      else if (ty =? "tree")%string then
        match obj with
        | Some (Object (Some children)) => sumZ (map countFiles_entry children)
        | _ => 0
        end
      else 0
  end.

(** [countFiles(entries)]: the sum of the contributions of the entries. *)
Definition countFiles (es : list TreeEntry) : Z :=
  sumZ (map countFiles_entry es).

(** The file entries below one entry, in depth-first pre-order. *)
Fixpoint files_of (e : TreeEntry) : list TreeEntry :=
  match e with
  | Entry ty _ _ obj =>
      if (ty =? "blob")%string then [e]
      else if (ty =? "tree")%string then
        match obj with
        | Some (Object (Some children)) => flat_map files_of children
        | _ => []
        end
      else []
  end.

(** The file entries of a sequence, in depth-first pre-order. *)
Definition preorder_files (es : list TreeEntry) : list TreeEntry :=
  flat_map files_of es.

(** A file entry whose extension equals [fileType]. *)
Definition matches (fileType : string) (f : TreeEntry) : bool :=
  (extension (name f) =? fileType)%string.

Definition path_of (found : option TreeEntry) : string :=
  match found with
  | Some f => path f
  | None => ""
  end.

(** [findFirstPathOfType(entries, fileType)]: the path of the first file in
    pre-order whose extension equals [fileType], empty when there is none. *)
Definition findFirstPathOfType (es : list TreeEntry) (fileType : string)
  : string :=
  path_of (find (matches fileType) (preorder_files es)).

(** A match that the walk can record: its path is not the empty string. *)
Definition recordable (fileType : string) (f : TreeEntry) : bool :=
  matches fileType f && JsString.truthy (path f).

(** The captured variable after the blobs [fs] were visited in order. *)
Definition visit_all (fileType : string) (fs : list TreeEntry)
  (fileTypePath : string) : string :=
  fold_left (fun p f => visit_blob fileType f p) fs fileTypePath.

(** ** Reordering a tree, and depth in a tree *)

(** [reordered es es']: [es'] is [es] with the entries permuted, at the top
    level and inside the expanded children; [same_kind] relates two entries
    of one type whose children are absent in both or reordered. *)
Inductive reordered : list TreeEntry -> list TreeEntry -> Prop :=
| reordered_nil : reordered [] []
| reordered_skip e e' l l' :
    same_kind e e' -> reordered l l' -> reordered (e :: l) (e' :: l')
| reordered_swap a b l : reordered (a :: b :: l) (b :: a :: l)
| reordered_trans l1 l2 l3 :
    reordered l1 l2 -> reordered l2 l3 -> reordered l1 l3
with same_kind : TreeEntry -> TreeEntry -> Prop :=
| same_kind_leaf e e' :
    type e = type e' ->
    object_entries e = None -> object_entries e' = None ->
    same_kind e e'
| same_kind_children e e' cs cs' :
    type e = type e' ->
    object_entries e = Some cs -> object_entries e' = Some cs' ->
    reordered cs cs' ->
    same_kind e e'.

Scheme reordered_mut := Induction for reordered Sort Prop
  with same_kind_mut := Induction for same_kind Sort Prop.

(** [at_depth d e es]: the entry [e] sits [d] directories below the sequence
    [es], reached through expanded children only. *)
Inductive at_depth : nat -> TreeEntry -> list TreeEntry -> Prop :=
| at_depth_here e es : In e es -> at_depth 0 e es
| at_depth_below d e dir children es :
    In dir es ->
    type dir = "tree" ->
    object_entries dir = Some children ->
    at_depth d e children ->
    at_depth (S d) e es.

(** A blob wrapped in [d] directories. *)
Fixpoint nest (d : nat) (blob : TreeEntry) : TreeEntry :=
  match d with
  | O => blob
  | S d' => Entry "tree" "dir" "dir" (Some (Object (Some [nest d' blob])))
  end.

(** The selection set of [getFileDetailsGrapqlQuery] applied to an entry of
    the upstream tree: [name], [type] and [path] always, and [object] with the
    [entries] of a tree for [levels] more levels; below that [object] is not
    asked for. *)
Fixpoint select_entry (levels : nat) (e : TreeEntry) : TreeEntry :=
  match e with
  | Entry ty n p obj =>
      match levels with
      | O => Entry ty n p None
      | S k =>
          Entry ty n p
            (option_map
               (fun o => Object (option_map (map (select_entry k)) (entries o)))
               obj)
      end
  end.

(** The entries the query returns for the root tree [es]: the root entries
    with their [object] (the fragment [FileDetails]), whose entries carry
    their [object] again, whose entries carry none. *)
Definition FileDetails_selection (es : list TreeEntry) : list TreeEntry :=
  map (select_entry 2) es.

(** ** Pairs of results, and pages of a connection *)

(** The batches that the loop collects from fulfilled promises: pairs in
    order, the last one closed with [undefined] when the count is odd. *)
Fixpoint batches_of (values : list Response) : list (list (option Response)) :=
  match values with
  | [] => []
  | [a] => [[Some a; None]]
  | a :: b :: rest => [Some a; Some b] :: batches_of rest
  end.

(** The connection argument [last: n] of the upstream service selects the
    final [n] nodes of the list it pages through. *)
Definition last_page {A : Type} (n : nat) (all : list A) : list A :=
  skipn (List.length all - n) all.

(** An upstream service whose [repositories] connection pages through the
    list [all] of the viewer's repositories. *)
Definition serves_repositories (up : Upstream) (all : list RepositoryNode)
  : Prop :=
  forall n, viewer_repositories_last up n = Fulfilled (last_page n all).

Definition to_summary (data : RepositoryNode) : RepositorySummary :=
  {| summary_name := node_name data;
     summary_owner := login (node_owner data);
     summary_size := node_diskUsage data |}.

(** ** Sample data *)

Module Sample.

Definition blob (n p : string) : TreeEntry := Entry "blob" n p None.

Definition dir (n : string) (children : list TreeEntry) : TreeEntry :=
  Entry "tree" n n (Some (Object (Some children))).

(** A directory the query did not expand. *)
Definition closed_dir (n : string) : TreeEntry := Entry "tree" n n None.

Definition tree : list TreeEntry :=
  [ blob "README" "README";
    dir "src" [ blob "app.js" "src/app.js";
                dir "ci" [ blob "build.yml" "src/ci/build.yml" ] ];
    blob "deploy.yml" "deploy.yml";
    closed_dir "docs" ].

Definition repository (n : string) (o : option GitObject) : Repository :=
  {| repo_id := "R_" ++ n;
     repo_name := n;
     repo_owner := {| login := "alice" |};
     repo_diskUsage := 42;
     repo_visibility := "PUBLIC";
     repo_object := o |}.

Definition nodes (count : nat) : list RepositoryNode :=
  map (fun i => {| node_name := "repo";
                   node_diskUsage := Z.of_nat i;
                   node_owner := {| login := "alice" |} |})
    (seq 0 count).

(** A service with [count] repositories of the viewer [alice]: ["missing"]
    is refused, ["nobranch"] has no [master] branch, ["gone"] comes back
    null, ["commit"] has a root object that is not a tree, and every other
    name has the tree above.  The empty path resolves to the root tree,
    which has no [text]. *)
Definition github (count : nat) : Upstream :=
  {| viewer_repositories_last := fun n => Fulfilled (last_page n (nodes count));
     file_details := fun n =>
       if (n =? "missing")%string then Rejected (UpstreamError "NOT_FOUND")
       else if (n =? "gone")%string then Fulfilled None
       else if (n =? "nobranch")%string then
         Fulfilled (Some (repository n None))
       else if (n =? "commit")%string then
         Fulfilled (Some (repository n (Some (Object None))))
       else Fulfilled (Some (repository n (Some (Object (Some tree)))));
     hooks := fun owner n =>
       Fulfilled (JArray [JObject [("url", JString (owner ++ "/" ++ n))]]);
     file_content := fun n p =>
       if (n =? "nobranch")%string then
         Fulfilled (Some {| content_object := None |})
       else if (p =? "")%string then
         Fulfilled (Some {| content_object := Some {| text := None |} |})
       else
         Fulfilled
           (Some {| content_object :=
                      Some {| text := Some ("text of " ++ p) |} |}) |}.

Definition no_race : nat -> bool := fun _ => false.

(** The responses of the chains for the names [a], [b] and [c], asked for
    by [bob]. *)
Definition responses_abc : list Response :=
  Eval vm_compute in
    flat_map (fun p => match p with
                       | Fulfilled d => [d]
                       | Rejected _ => []
                       end)
      (start_all (github 3) ["a"; "b"; "c"] "yml" "bob").

(** The records for the names [a], [b] and [c], asked for by [bob]. *)
Definition details_abc : list (option RepositoryDetails) :=
  Eval vm_compute in
    match fetchRepositoriesDetails no_race (github 3) ["a"; "b"; "c"]
            "yml" "bob" with
    | Fulfilled records => records
    | Rejected _ => []
    end.

End Sample.

(** ** The requests as they are written *)

(** The URL of [getActiveWebhooks]: the template
    [https://api.github.com/repos/${owner}/${repoName}/hooks]. *)
Definition hooks_url (owner repoName : string) : string :=
  "https://api.github.com/repos/" ++ owner ++ "/" ++ repoName ++ "/hooks".

(** The [expression] of the root object in [getFileDetailsGrapqlQuery]. *)
Definition tree_expression : string := "master:".

(** The [expression] of [getContentForSpecificFileGraphqlQuery]: the
    template [master:${fileTypePath}]. *)
Definition content_expression (fileTypePath : string) : string :=
  "master:" ++ fileTypePath.

(** The character ['/'] does not occur in [s]. *)
Fixpoint no_slash (s : string) : bool :=
  match s with
  | EmptyString => true
  | String a s' => negb (Ascii.eqb a "/") && no_slash s'
  end.

(** What an expression resolves to on the service: a tree with its entries,
    a blob with its text (null for a binary blob), or another git object. *)
Inductive GitValue : Type :=
| TreeValue (es : list TreeEntry)
| BlobValue (t : option string)
| OtherValue.

(** [object(expression: ...) { ... on Tree { entries ... } }] of the
    file-details query: null when nothing resolves, without [entries] when
    the object is no tree. *)
Definition tree_selection (v : option GitValue) : option GitObject :=
  match v with
  | None => None
  | Some (TreeValue es) => Some (Object (Some (FileDetails_selection es)))
  | Some _ => Some (Object None)
  end.

(** [object(expression: ...) { ... on Blob { text } }] of the file-content
    query. *)
Definition blob_selection (v : option GitValue) : option Blob :=
  match v with
  | None => None
  | Some (BlobValue t) => Some {| text := t |}
  | Some _ => Some {| text := None |}
  end.

(** The two repository queries of one chain read one state of the service:
    [resolve X e] is what the expression [e] resolves to in repository [X]. *)
Definition one_snapshot (up : Upstream)
  (resolve : string -> string -> option GitValue) : Prop :=
  forall X,
    (forall repo,
        file_details up X = Fulfilled (Some repo) ->
        repo_object repo = tree_selection (resolve X tree_expression))
    /\ (forall p c,
           file_content up X p = Fulfilled (Some c) ->
           content_object c
           = blob_selection (resolve X (content_expression p))).

(** ** Readings of a response *)

(** [entry.type === "blob"] *)
Definition is_blob (e : TreeEntry) : bool := (type e =? "blob")%string.

(** [repository.object?.entries] *)
Definition root_entries (repo : Repository) : option (list TreeEntry) :=
  match repo_object repo with
  | Some o => entries o
  | None => None
  end.

(** The value of [fileTypePath] when the content query is built. *)
Definition recorded_path (fileType : string) (repo : Repository) : string :=
  match root_entries repo with
  | Some es => snd (count_entries fileType es "")
  | None => ""
  end.

(** No entry has expanded children more than [levels] directories down. *)
Fixpoint within (levels : nat) (e : TreeEntry) : bool :=
  match e with
  | Entry _ _ _ obj =>
      match obj with
      | Some (Object (Some children)) =>
          match levels with
          | O => false
          | S k => forallb (within k) children
          end
      | _ => true
      end
  end.

(** What the state of [Sample.github] resolves an expression to. *)
Definition sample_resolve (X expression : string) : option GitValue :=
  if (X =? "nobranch")%string then None
  else if (expression =? "master:")%string then
    if (X =? "commit")%string then Some OtherValue
    else Some (TreeValue Sample.tree)
  else Some (BlobValue (Some ("text of " ++ JsString.drop 7 expression))).

(** ** The loop in the time of the event loop *)

(** What the caller of a resolver gets: the call settles, or the process ends
    before it does.  [main] installs no listener for unhandled rejections,
    and a promise that rejects while no handler is attached to it then ends
    the process. *)
Inductive outcome (A : Type) : Type :=
| Settles (r : result A)
| ProcessEnds.

Arguments Settles {A} r.
Arguments ProcessEnds {A}.

Section InTime.

(** [settles_at j]: the instant at which the promise at index [j] settles.
    Instants count the turns of the event loop from the instant 0 at which
    the resolver starts the chains and enters the loop; two promises with
    the same instant settle in the order of their indices. *)
Variable settles_at : nat -> nat.

(** A promise at index [from] or later rejected before [instant]. *)
Definition rejected_before (promises : list (result Response))
  (from instant : nat) : bool :=
  existsb (fun j => match nth_error promises j with
                    | Some (Rejected _) => (settles_at j <? instant)%nat
                    | _ => false
                    end)
    (seq from (List.length promises - from)).

(** Of the pair at [i], the second promise settles before the first. *)
Definition second_settles_first (i : nat) : bool :=
  (settles_at (i + 1) <? settles_at i)%nat.

(** The instant at which the array promise of the pair at [i] rejects: that
    of the first rejection among the two. *)
Definition pair_rejected_at (promises : list (result Response)) (i : nat)
  : nat :=
  match nth_error promises i, nth_error promises (i + 1) with
  | Some (Rejected _), Some (Rejected _) =>
      Nat.min (settles_at i) (settles_at (i + 1))
  | Some (Rejected _), _ => settles_at i
  | _, _ => settles_at (i + 1)
  end.

(** The instant at which the array promise of the pair at [i], subscribed
    to at [now], fulfils: when both promises have. *)
Definition pair_fulfilled_at (promises : list (result Response))
  (i now : nat) : nat :=
  Nat.max now
    (Nat.max (settles_at i)
       match nth_error promises (i + 1) with
       | Some _ => settles_at (i + 1)
       | None => 0%nat
       end).

(** The [for] loop of [runMultiplePromiseAllInLoop] from index [i] on,
    reached at the instant [now].  All promises were started before the
    loop, and [Promise.all] attaches handlers to the two promises of the
    pair at [i] only now: a promise at [i] or later that rejected before
    [now] had none.  When the pair rejects, the promises after it never get
    one, and those that rejected before the pair did ended the process
    before the call could settle. *)
Equations? loop_in_time (promises : list (result Response)) (i now : nat)
  (results : list (list (option Response)))
  : outcome (list (list (option Response)))
  by wf (List.length promises - i)%nat lt :=
  loop_in_time promises i now results with lt_dec i (List.length promises) := {
    | left _ =>
        if rejected_before promises i now then ProcessEnds
        else
          match promise_all_pair (second_settles_first i)
                  (nth_error promises i) (nth_error promises (i + 1)) with
          | Fulfilled both =>
              loop_in_time promises (i + 2)
                (pair_fulfilled_at promises i now) (results ++ [both])%list
          | Rejected e =>
              if rejected_before promises (i + 2) (pair_rejected_at promises i)
              then ProcessEnds
              else Settles (Rejected e)
          end
    | right _ => Settles (Fulfilled results) }.
Proof. lia. Qed.

(** [runMultiplePromiseAllInLoop(promises)], called at the instant 0. *)
Definition runMultiplePromiseAllInLoop_in_time
  (promises : list (result Response))
  : outcome (list (list (option Response))) :=
  loop_in_time promises 0 0 [].

(** [resolvers.Query.fetchRepositoriesDetails] in time. *)
Definition fetchRepositoriesDetails_in_time (upstream : Upstream)
  (repoNames : list string) (fileType owner : string)
  : outcome (list (option RepositoryDetails)) :=
  let promises := start_all upstream repoNames fileType owner in
  match runMultiplePromiseAllInLoop_in_time promises with
  | ProcessEnds => ProcessEnds
  | Settles (Rejected e) => Settles (Rejected e)
  | Settles (Fulfilled batches) =>
      let result := List.concat batches in
      Settles (map_throwing to_details (filter truthy_data result))
  end.

End InTime.

(** Instants for the samples: the promise at index [j] settles at the
    [j]-th instant of the list, and at 0 past its end. *)
Definition instants (l : list nat) : nat -> nat := fun j => nth j l 0%nat.

(** * Properties *)

(** ** Strings *)

Lemma lastIndexOf_from_no_dot (s : string) (i found : Z) :
  JsString.no_dot s = true ->
  JsString.lastIndexOf_from "." s i found = found.
Proof.
  revert i found.
  induction s as [|a s IH]; intros i found H; simpl in *.
  - reflexivity.
  - apply andb_true_iff in H as [Ha Hs].
    apply negb_true_iff in Ha. rewrite Ha. now apply IH.
Qed.

Lemma lastIndexOf_from_last_dot (a b : string) (i found : Z) :
  JsString.no_dot b = true ->
  JsString.lastIndexOf_from "." (a ++ String "." b) i found
  = i + JsString.len a.
Proof.
  intros Hb. revert i found.
  induction a as [|c a IH]; intros i found; simpl.
  - rewrite lastIndexOf_from_no_dot by assumption.
    unfold JsString.len. simpl. lia.
  - rewrite IH. unfold JsString.len. simpl String.length. lia.
Qed.

Lemma drop_app (a b : string) :
  JsString.drop (String.length a) (a ++ b) = b.
Proof. induction a as [|c a IH]; simpl; [now destruct b | exact IH]. Qed.

(** Without a ['.'] the extension is the whole name. *)
Lemma extension_no_dot (entryName : string) :
  JsString.no_dot entryName = true -> extension entryName = entryName.
Proof.
  intros H. unfold extension, JsString.lastIndexOf.
  rewrite lastIndexOf_from_no_dot by assumption.
  unfold JsString.slice. simpl. now destruct entryName.
Qed.

(** With a ['.'] the extension is what follows the last one. *)
Lemma extension_after_last_dot (a b : string) :
  JsString.no_dot b = true -> extension (a ++ String "." b) = b.
Proof.
  intros H. unfold extension, JsString.lastIndexOf.
  rewrite lastIndexOf_from_last_dot by assumption.
  unfold JsString.slice, JsString.len.
  replace (0 + Z.of_nat (String.length a) + 1 <? 0) with false
    by (symmetry; apply Z.ltb_ge; lia).
  replace (Z.to_nat (0 + Z.of_nat (String.length a) + 1))
    with (String.length (a ++ ".")).
  - replace (a ++ String "." b) with ((a ++ ".") ++ b).
    + apply drop_app.
    + clear. induction a as [|c a IH]; simpl; [reflexivity | now rewrite IH].
  - clear. induction a as [|c a IH]; simpl String.length in *; lia.
Qed.

(** ** The tree walk *)

(** Induction over an entry with the property available for all expanded
    children. *)
Lemma TreeEntry_children_ind (P : TreeEntry -> Prop) :
  (forall ty n p o, object_entries (Entry ty n p o) = None ->
                    P (Entry ty n p o)) ->
  (forall ty n p cs, Forall P cs ->
                     P (Entry ty n p (Some (Object (Some cs))))) ->
  forall e, P e.
Proof.
  intros Hleaf Hnode.
  fix IH 1.
  intros [ty n p [[[cs|]]|]].
  - apply Hnode.
    induction cs as [|c cs IHcs]; constructor; [apply IH | exact IHcs].
  - now apply Hleaf.
  - now apply Hleaf.
Qed.

Lemma visit_all_app ft (fs gs : list TreeEntry) (p : string) :
  visit_all ft (fs ++ gs) p = visit_all ft gs (visit_all ft fs p).
Proof. apply fold_left_app. Qed.

Lemma reduce_children ft (cs : list TreeEntry) :
  Forall (fun c => forall p,
            countBlobFiles ft c p
            = (countFiles_entry c, visit_all ft (files_of c) p)) cs ->
  forall acc,
    fold_left (reduce_step ft) cs acc
    = (fst acc + sumZ (map countFiles_entry cs),
       visit_all ft (flat_map files_of cs) (snd acc)).
Proof.
  induction 1 as [|c cs Hc _ IH]; intros [sum p]; simpl.
  - f_equal. lia.
  - rewrite IH. unfold reduce_step. simpl. rewrite Hc. simpl.
    rewrite visit_all_app. f_equal. lia.
Qed.

(** The walk of one entry returns the specification's count and leaves in
    the variable what visiting its files in pre-order leaves there. *)
Lemma countBlobFiles_spec ft (e : TreeEntry) :
  forall p,
    countBlobFiles ft e p = (countFiles_entry e, visit_all ft (files_of e) p).
Proof.
  induction e as [ty n q o Ho | ty n q cs IH] using TreeEntry_children_ind;
    intros p; simpl.
  - destruct (ty =? "blob")%string; [reflexivity|].
    destruct (ty =? "tree")%string; [|reflexivity].
    destruct o as [[[cs|]]|]; [discriminate Ho | reflexivity | reflexivity].
  - destruct (ty =? "blob")%string; [reflexivity|].
    destruct (ty =? "tree")%string; [|reflexivity].
    change (fold_left (reduce_step ft) cs (0, p)
            = (sumZ (map countFiles_entry cs),
               visit_all ft (flat_map files_of cs) p)).
    now rewrite (reduce_children ft cs IH).
Qed.

Lemma count_entries_spec ft (es : list TreeEntry) (p : string) :
  count_entries ft es p = (countFiles es, visit_all ft (preorder_files es) p).
Proof.
  unfold count_entries, countFiles, preorder_files.
  rewrite reduce_children.
  - reflexivity.
  - apply Forall_forall. intros c _. apply countBlobFiles_spec.
Qed.

Lemma sumZ_app (l1 l2 : list Z) : sumZ (l1 ++ l2) = sumZ l1 + sumZ l2.
Proof. induction l1 as [|x l1 IH]; simpl; [reflexivity | rewrite IH; lia]. Qed.

Lemma countFiles_entry_nonneg (e : TreeEntry) : 0 <= countFiles_entry e.
Proof.
  induction e as [ty n q o Ho | ty n q cs IH] using TreeEntry_children_ind;
    simpl.
  - destruct (ty =? "blob")%string; [lia|].
    destruct (ty =? "tree")%string; [|lia].
    destruct o as [[[cs|]]|]; [discriminate Ho | lia | lia].
  - destruct (ty =? "blob")%string; [lia|].
    destruct (ty =? "tree")%string; [|lia].
    induction IH as [|c cs Hc _ IHcs]; simpl; lia.
Qed.

Lemma countFiles_nonneg (es : list TreeEntry) : 0 <= countFiles es.
Proof.
  unfold countFiles.
  induction es as [|e es IH]; simpl; [lia|].
  pose proof (countFiles_entry_nonneg e). lia.
Qed.

(** The count is the number of file entries in pre-order. *)
Lemma countFiles_entry_files (e : TreeEntry) :
  countFiles_entry e = Z.of_nat (List.length (files_of e)).
Proof.
  induction e as [ty n q o Ho | ty n q cs IH] using TreeEntry_children_ind;
    simpl.
  - destruct (ty =? "blob")%string; [reflexivity|].
    destruct (ty =? "tree")%string; [|reflexivity].
    destruct o as [[[cs|]]|]; [discriminate Ho | reflexivity | reflexivity].
  - destruct (ty =? "blob")%string; [reflexivity|].
    destruct (ty =? "tree")%string; [|reflexivity].
    induction IH as [|c cs Hc _ IHcs]; simpl; [reflexivity|].
    rewrite length_app, Hc, IHcs. lia.
Qed.

Lemma countFiles_preorder (es : list TreeEntry) :
  countFiles es = Z.of_nat (List.length (preorder_files es)).
Proof.
  unfold countFiles, preorder_files.
  induction es as [|e es IH]; simpl; [reflexivity|].
  rewrite length_app, countFiles_entry_files, IH. lia.
Qed.

(** Once the variable holds a non-empty path, no later blob changes it. *)
Lemma visit_all_truthy ft (fs : list TreeEntry) (p : string) :
  JsString.truthy p = true -> visit_all ft fs p = p.
Proof.
  intros Hp. induction fs as [|f fs IH]; simpl; [reflexivity|].
  unfold visit_blob. rewrite Hp, andb_false_r. exact IH.
Qed.

(** From the empty variable, the walk records the first match whose path is
    not empty. *)
Lemma visit_all_empty ft (fs : list TreeEntry) :
  visit_all ft fs "" = path_of (find (recordable ft) fs).
Proof.
  induction fs as [|f fs IH]; simpl; [reflexivity|].
  unfold visit_blob, recordable, matches. simpl.
  rewrite andb_true_r.
  destruct (extension (name f) =? ft)%string; simpl; [|exact IH].
  destruct (JsString.truthy (path f)) eqn:Hp.
  - now apply visit_all_truthy.
  - destruct (path f); [exact IH | discriminate Hp].
Qed.

Lemma countFiles_entry_unfold (e : TreeEntry) :
  countFiles_entry e
  = if (type e =? "blob")%string then 1
    else if (type e =? "tree")%string then
      match object_entries e with
      | Some children => countFiles children
      | None => 0
      end
    else 0.
Proof. destruct e as [ty n p [[[cs|]]|]]; reflexivity. Qed.

Lemma files_of_unfold (e : TreeEntry) :
  files_of e
  = if (type e =? "blob")%string then [e]
    else if (type e =? "tree")%string then
      match object_entries e with
      | Some children => preorder_files children
      | None => []
      end
    else [].
Proof. destruct e as [ty n p [[[cs|]]|]]; reflexivity. Qed.

(** C4: the number the walk returns for a sequence of entries is the sum the
    specification describes ([countFiles]: 1 for a file entry, the count of
    the expanded children for a directory that carries them, 0 for a
    directory without them); it is 0 on the empty sequence, never negative,
    and the same whatever the requested file type and the content of the
    captured variable are. *)
Theorem countFiles_refined (fileType : string) (es : list TreeEntry)
  (fileTypePath : string) :
  fst (count_entries fileType es fileTypePath) = countFiles es
  /\ fst (count_entries fileType [] fileTypePath) = 0
  /\ 0 <= fst (count_entries fileType es fileTypePath)
  /\ (forall fileType' fileTypePath',
         fst (count_entries fileType' es fileTypePath')
         = fst (count_entries fileType es fileTypePath)).
Proof.
  rewrite count_entries_spec. simpl. repeat split.
  - apply countFiles_nonneg.
  - intros ft' p'. now rewrite count_entries_spec.
Qed.

(** C8: for a file entry whose name has no ['.'], the computed extension is
    the whole name; the comparison with [fileType] succeeds exactly when
    [fileType] is that whole name, and with any other [fileType] the entry
    leaves the captured variable as it was. *)
Theorem extension_without_dot (e : TreeEntry) (fileType : string) :
  JsString.no_dot (name e) = true ->
  extension (name e) = name e
  /\ (matches fileType e = true <-> fileType = name e)
  /\ (fileType <> name e ->
      forall fileTypePath, visit_blob fileType e fileTypePath = fileTypePath).
Proof.
  intros H. pose proof (extension_no_dot _ H) as Hext.
  split; [exact Hext|]. unfold matches, visit_blob. rewrite Hext. split.
  - rewrite String.eqb_eq. split; congruence.
  - intros Hne p.
    destruct (String.eqb_spec (name e) fileType) as [Heq|_];
      [now elim Hne | reflexivity].
Qed.

Lemma extension_without_dot_witness :
  JsString.no_dot (name (Sample.blob "Makefile" "Makefile")) = true
  /\ extension (name (Sample.blob "Makefile" "Makefile")) = "Makefile"
  /\ visit_blob "yml" (Sample.blob "Makefile" "Makefile") "" = ""
  /\ matches "" (Sample.blob "" "x") = true.
Proof.
  destruct (extension_without_dot (Sample.blob "Makefile" "Makefile") "yml"
              eq_refl) as (Hext & _ & Hother).
  destruct (extension_without_dot (Sample.blob "" "x") "" eq_refl)
    as (_ & Hmatch & _).
  split; [reflexivity|]. split; [exact Hext|].
  split; [apply Hother; discriminate | now apply Hmatch].
Defined.

(** The comparison of the extension is exact: case matters. *)
Lemma matches_case_sensitive :
  matches "yml" (Sample.blob "ci.yml" "ci.yml") = true
  /\ matches "yml" (Sample.blob "CI.YML" "CI.YML") = false
  /\ matches "yml" (Sample.blob "archive.tar.yml" "archive.tar.yml") = true.
Proof. repeat split. Qed.

(** ** Order of the entries *)

Lemma countFiles_cons (e : TreeEntry) (es : list TreeEntry) :
  countFiles (e :: es) = countFiles_entry e + countFiles es.
Proof. reflexivity. Qed.

Lemma reordered_countFiles (es es' : list TreeEntry) :
  reordered es es' -> countFiles es = countFiles es'.
Proof.
  intros H.
  induction H using reordered_mut
    with (P0 := fun e e' _ => countFiles_entry e = countFiles_entry e').
  - reflexivity.
  - rewrite !countFiles_cons. congruence.
  - rewrite !countFiles_cons. lia.
  - congruence.
  - rewrite !countFiles_entry_unfold. now rewrite <- e0, e1, e2.
  - rewrite !countFiles_entry_unfold. now rewrite <- e0, e1, e2, IHreordered.
Qed.

Lemma same_kind_refl (e : TreeEntry) : same_kind e e.
Proof.
  induction e as [ty n q o Ho | ty n q cs IH] using TreeEntry_children_ind.
  - now apply same_kind_leaf.
  - apply same_kind_children with (cs := cs) (cs' := cs); try reflexivity.
    induction IH as [|c cs Hc _ IHcs]; constructor; assumption.
Qed.

(** A permutation of the top level is a reordering. *)
Lemma Permutation_reordered (es es' : list TreeEntry) :
  Permutation es es' -> reordered es es'.
Proof.
  induction 1.
  - constructor.
  - constructor; [apply same_kind_refl | assumption].
  - apply reordered_swap.
  - eapply reordered_trans; eassumption.
Qed.

(** C9: reordering the entries, at the top level or inside the expanded
    children of any directory, leaves the count unchanged; entries are only
    compared by their type and their children. *)
Theorem count_order_invariant (fileType fileType' : string)
  (es es' : list TreeEntry) (fileTypePath fileTypePath' : string) :
  reordered es es' ->
  fst (count_entries fileType es fileTypePath)
  = fst (count_entries fileType' es' fileTypePath').
Proof.
  intros H. rewrite !count_entries_spec. simpl.
  now apply reordered_countFiles.
Qed.

Lemma count_order_invariant_witness :
  let a := Sample.blob "a.yml" "a.yml" in
  let b := Sample.blob "b.js" "lib/b.js" in
  let c := Sample.blob "c.yml" "lib/c.yml" in
  reordered [a; Sample.dir "lib" [b; c]] [Sample.dir "lib" [c; b]; a]
  /\ fst (count_entries "yml" [a; Sample.dir "lib" [b; c]] "")
     = fst (count_entries "js" [Sample.dir "lib" [c; b]; a] "").
Proof.
  intros a b c.
  assert (H : reordered [a; Sample.dir "lib" [b; c]]
                [Sample.dir "lib" [c; b]; a]).
  { apply reordered_trans with (l2 := [Sample.dir "lib" [b; c]; a]).
    - apply reordered_swap.
    - apply reordered_skip.
      + apply same_kind_children with (cs := [b; c]) (cs' := [c; b]);
          try reflexivity.
        apply reordered_swap.
      + apply Permutation_reordered, Permutation_refl. }
  split; [exact H|].
  apply (count_order_invariant "yml" "js" _ _ "" "" H).
Defined.

(** ** Depth *)

Lemma in_preorder_files (e f : TreeEntry) (es : list TreeEntry) :
  In e es -> In f (files_of e) -> In f (preorder_files es).
Proof. intros He Hf. apply in_flat_map. now exists e. Qed.

Lemma at_depth_in_preorder (d : nat) (f : TreeEntry) (es : list TreeEntry) :
  at_depth d f es -> type f = "blob" -> In f (preorder_files es).
Proof.
  induction 1 as [f es Hin | d f dir children es Hin Hty Hch _ IH];
    intros Hblob.
  - apply in_preorder_files with (e := f); [assumption|].
    rewrite files_of_unfold, Hblob. now left.
  - apply in_preorder_files with (e := dir); [assumption|].
    rewrite files_of_unfold, Hty, Hch. now apply IH.
Qed.

Lemma at_depth_nest (d : nat) (blob : TreeEntry) :
  at_depth d blob [nest d blob].
Proof.
  induction d as [|d IH]; simpl.
  - apply at_depth_here. now left.
  - eapply at_depth_below; [now left | reflexivity | reflexivity | exact IH].
Qed.

Lemma find_some_of_in {A : Type} (f : A -> bool) (x : A) (l : list A) :
  In x l -> f x = true -> exists y, find f l = Some y.
Proof.
  induction l as [|a l IH]; intros Hin Hx; [contradiction|]. simpl.
  destruct (f a) eqn:Ha; [now exists a|].
  destruct Hin as [->|Hin]; [congruence | now apply IH].
Qed.

Lemma count_selected_nest ft (d : nat) (f : TreeEntry) :
  type f = "blob" ->
  fst (count_entries ft (FileDetails_selection [nest d f]) "")
  = if (d <=? 2)%nat then 1 else 0.
Proof.
  intros Hblob. destruct f as [ty n p o]. simpl in Hblob. subst ty.
  destruct d as [|[|[|d]]]; reflexivity.
Qed.

(** C10: a blob that sits any number [d] of expanded directories below the
    sequence is among the files the walk counts (the count is the number of
    files in pre-order over the whole tree) and among those it considers for
    the path: the recorded path is that of the first recordable file of the
    whole tree, and there is one as soon as the blob itself is recordable.
    Only the selection of the query stops at two directories: of a blob
    wrapped in [d] directories it leaves something to count exactly when [d]
    is at most 2. *)
Theorem walk_reaches_every_depth (d : nat) (f : TreeEntry)
  (es : list TreeEntry) (fileType : string) :
  at_depth d f es ->
  type f = "blob" ->
  In f (preorder_files es)
  /\ fst (count_entries fileType es "")
     = Z.of_nat (List.length (preorder_files es))
  /\ snd (count_entries fileType es "")
     = path_of (find (recordable fileType) (preorder_files es))
  /\ (recordable fileType f = true ->
      exists g, find (recordable fileType) (preorder_files es) = Some g
                /\ snd (count_entries fileType es "") = path g)
  /\ fst (count_entries fileType [nest d f] "") = 1
  /\ fst (count_entries fileType (FileDetails_selection [nest d f]) "")
     = if (d <=? 2)%nat then 1 else 0.
Proof.
  intros Hd Hblob.
  pose proof (at_depth_in_preorder d f es Hd Hblob) as Hin.
  rewrite !count_entries_spec. simpl fst. simpl snd.
  rewrite visit_all_empty, <- countFiles_preorder.
  split; [exact Hin|]. split; [reflexivity|]. split; [reflexivity|].
  split; [|split].
  - intros Hrec.
    destruct (find_some_of_in _ _ _ Hin Hrec) as [g Hg].
    exists g. now rewrite Hg.
  - clear Hd Hin. induction d as [|d IH].
    + unfold countFiles. simpl map. rewrite countFiles_entry_unfold, Hblob.
      reflexivity.
    + unfold countFiles in *. simpl in *. lia.
  - pose proof (count_selected_nest fileType d f Hblob) as H.
    now rewrite count_entries_spec in H.
Qed.

Lemma walk_reaches_every_depth_witness :
  let f := Sample.blob "deep.yml" "a/b/c/d/e/deep.yml" in
  at_depth 5 f [nest 5 f]
  /\ type f = "blob"
  /\ fst (count_entries "yml" [nest 5 f] "") = 1
  /\ snd (count_entries "yml" [nest 5 f] "") = "a/b/c/d/e/deep.yml"
  /\ fst (count_entries "yml" (FileDetails_selection [nest 5 f]) "") = 0.
Proof.
  intros f.
  destruct (walk_reaches_every_depth 5 f [nest 5 f] "yml"
              (at_depth_nest 5 f) eq_refl)
    as (_ & Hcount & Hpath & _ & _ & Hselected).
  split; [apply at_depth_nest|].
  split; [reflexivity|].
  split; [exact Hcount|]. split; [exact Hpath | exact Hselected].
Defined.

(** ** The assembly chain *)

(** What a fulfilled chain went through. *)
Lemma fetchSingleRepositoryData_fulfilled up (repoName fileType owner : string)
  (d : Response) :
  fetchSingleRepositoryData up repoName fileType owner = Fulfilled d ->
  exists repo files p content,
    file_details up repoName = Fulfilled (Some repo)
    /\ count_root fileType (Some repo) "" = Fulfilled (files, p)
    /\ getActiveWebhooks up owner repoName = Fulfilled (activeWebhooks d)
    /\ file_content up repoName p = Fulfilled content
    /\ content_text content = Fulfilled (contentOfSpecificFile d)
    /\ data_viewer_repository d = Some repo
    /\ numberOfFiles d = files.
Proof.
  unfold fetchSingleRepositoryData, await.
  destruct (file_details up repoName) as [[repo|]|e]; try discriminate.
  destruct (count_root fileType (Some repo) "") as [[files p]|e] eqn:Hc;
    [|discriminate].
  destruct (getActiveWebhooks up owner repoName) as [w|e]; [|discriminate].
  destruct (file_content up repoName p) as [c|e] eqn:Hf; [|discriminate].
  destruct (content_text c) as [t|e] eqn:Ht; [|discriminate].
  intros [= <-]. exists repo, files, p, c. simpl. now repeat split.
Qed.

(** ** The loop over the promises *)

Lemma loop_step race promises i results :
  loop race promises i results
  = if lt_dec i (List.length promises) then
      match promise_all_pair (race i) (nth_error promises i)
              (nth_error promises (i + 1)) with
      | Fulfilled both => loop race promises (i + 2) (results ++ [both])%list
      | Rejected e => Rejected e
      end
    else Fulfilled results.
Proof.
  rewrite loop_equation_1.
  destruct (lt_dec i (List.length promises)); reflexivity.
Qed.

Lemma skipn_nth_cons {A : Type} (l : list A) (i : nat) (a : A) :
  nth_error l i = Some a -> skipn i l = a :: skipn (S i) l.
Proof.
  revert i. induction l as [|x l IH]; intros [|i] H; simpl in *;
    try discriminate.
  - now injection H as ->.
  - now apply IH.
Qed.

Lemma skipn_nth_none {A : Type} (l : list A) (i : nat) :
  nth_error l i = None -> skipn i l = [].
Proof. intros H. apply skipn_all2. now apply nth_error_None. Qed.

(** With every promise fulfilled the loop ends with the batches in order. *)
Lemma loop_fulfilled race (values : list Response) :
  forall n i results,
    (List.length values - i <= n)%nat ->
    loop race (map Fulfilled values) i results
    = Fulfilled (results ++ batches_of (skipn i values))%list.
Proof.
  induction n as [|n IH]; intros i results Hn; rewrite loop_step;
    rewrite length_map;
    destruct (lt_dec i (List.length values)) as [Hlt|Hge];
    try (rewrite skipn_all2 by lia; simpl; now rewrite app_nil_r);
    try lia.
  rewrite !nth_error_map.
  replace (i + 1)%nat with (S i) by lia.
  replace (i + 2)%nat with (S (S i)) by lia.
  destruct (nth_error values i) as [a|] eqn:Ha;
    [|apply nth_error_None in Ha; lia].
  rewrite (skipn_nth_cons _ _ _ Ha).
  destruct (nth_error values (S i)) as [b|] eqn:Hb;
    cbn [option_map promise_all_pair].
  - rewrite (skipn_nth_cons _ _ _ Hb).
    rewrite IH by lia. cbn [batches_of]. now rewrite <- app_assoc.
  - rewrite (skipn_nth_none _ _ Hb).
    rewrite IH by lia.
    rewrite skipn_all2 by (apply nth_error_None in Hb; lia).
    cbn [batches_of]. now rewrite app_nil_r.
Qed.

Lemma promise_all_pair_rejected sf (a b : option (result Response)) e :
  promise_all_pair sf a b = Rejected e ->
  a = Some (Rejected e) \/ b = Some (Rejected e).
Proof.
  destruct a as [[va|ea]|], b as [[vb|eb]|]; simpl; try discriminate;
    destruct sf; intros [= <-]; auto.
Qed.

Lemma promise_all_pair_fulfilled sf (a b : option (result Response)) both :
  promise_all_pair sf a b = Fulfilled both ->
  a <> None ->
  exists va, a = Some (Fulfilled va)
             /\ (b = None \/ exists vb, b = Some (Fulfilled vb)).
Proof.
  destruct a as [[va|ea]|], b as [[vb|eb]|]; simpl; try discriminate;
    intros _ Hne; try (now elim Hne); exists va; split; eauto.
Qed.

(** With a rejected promise at or after [i], the loop ends with the reason of
    one of the rejected promises. *)
Lemma loop_rejected race (promises : list (result Response)) :
  forall n i results,
    (List.length promises - i <= n)%nat ->
    Exists (fun p => is_rejected p = true) (skipn i promises) ->
    exists e, loop race promises i results = Rejected e
              /\ In (Rejected e) promises.
Proof.
  induction n as [|n IH]; intros i results Hn Hex; rewrite loop_step;
    destruct (lt_dec i (List.length promises)) as [Hlt|Hge];
    try (rewrite skipn_all2 in Hex by lia; inversion Hex);
    try lia.
  destruct (promise_all_pair (race i) (nth_error promises i)
              (nth_error promises (i + 1))) as [both|e] eqn:Hp.
  - apply promise_all_pair_fulfilled in Hp as (va & Ha & Hb);
      [|intros Hnone; apply nth_error_None in Hnone; lia].
    apply IH; [lia|].
    rewrite (skipn_nth_cons _ _ _ Ha) in Hex.
    apply Exists_cons in Hex as [Hrej|Hrest]; [discriminate Hrej|].
    replace (i + 1)%nat with (S i) in Hb by lia.
    replace (i + 2)%nat with (S (S i)) by lia.
    destruct Hb as [Hb|[vb Hb]].
    + rewrite (skipn_nth_none _ _ Hb) in Hrest. inversion Hrest.
    + rewrite (skipn_nth_cons _ _ _ Hb) in Hrest.
      apply Exists_cons in Hrest as [Hrej|Hrest];
        [discriminate Hrej | exact Hrest].
  - exists e. split; [reflexivity|].
    apply promise_all_pair_rejected in Hp as [Hp|Hp];
      eapply nth_error_In; exact Hp.
Qed.

Lemma fulfilled_or_rejected (promises : list (result Response)) :
  (exists values, promises = map Fulfilled values)
  \/ Exists (fun p => is_rejected p = true) promises.
Proof.
  induction promises as [|[v|e] ps [[vs ->]|Hex]].
  - left. now exists [].
  - left. now exists (v :: vs).
  - right. now apply Exists_cons_tl.
  - right. now apply Exists_cons_hd.
  - right. now apply Exists_cons_hd.
Qed.

Lemma filter_batches (values : list Response) :
  filter truthy_data (List.concat (batches_of values)) = map Some values.
Proof.
  enough (H : forall vs,
             filter truthy_data (List.concat (batches_of vs)) = map Some vs
             /\ forall a,
                 filter truthy_data (List.concat (batches_of (a :: vs)))
                 = map Some (a :: vs)) by apply H.
  induction vs as [|b vs [IH1 IH2]]; split; try reflexivity.
  - apply IH2.
  - intros a. simpl. now rewrite IH1.
Qed.

(** ** The resolver of [fetchRepositoriesDetails] *)

(** The promises are all fulfilled exactly when the chain of every name
    fulfils, [ds] being the responses in the order of the names. *)
Lemma start_all_fulfilled up (names : list string) (fileType owner : string)
  (ds : list Response) :
  start_all up names fileType owner = map Fulfilled ds
  <-> Forall2 (fun X d =>
                 fetchSingleRepositoryData up X fileType owner = Fulfilled d)
        names ds.
Proof.
  unfold start_all. split.
  - revert ds. induction names as [|X names IH]; intros [|d ds] H;
      simpl in *; try discriminate; constructor.
    + now injection H.
    + apply IH. now injection H.
  - induction 1 as [|X d names ds HX _ IH]; simpl; [reflexivity|].
    now rewrite HX, IH.
Qed.

Lemma to_details_fulfilled up (X fileType owner : string) (d : Response) :
  fetchSingleRepositoryData up X fileType owner = Fulfilled d ->
  exists r, to_details (Some d) = Fulfilled (Some r)
            /\ details_activeWebhooks r = activeWebhooks d.
Proof.
  intros H.
  apply fetchSingleRepositoryData_fulfilled in H
    as (repo & files & p & c & _ & _ & _ & _ & _ & Hrepo & _).
  simpl. rewrite Hrepo. eexists. split; reflexivity.
Qed.

Lemma map_to_details up (names : list string) (fileType owner : string)
  (ds : list Response) :
  Forall2 (fun X d =>
             fetchSingleRepositoryData up X fileType owner = Fulfilled d)
    names ds ->
  exists records,
    map_throwing to_details (map Some ds) = Fulfilled records
    /\ Forall2 (fun d record =>
                  exists r, record = Some r
                            /\ to_details (Some d) = Fulfilled (Some r))
         ds records.
Proof.
  induction 1 as [|X d names ds HX _ (records & Hmap & Hall)].
  - exists []. split; [reflexivity | constructor].
  - destruct (to_details_fulfilled _ _ _ _ _ HX) as (r & Hr & _).
    exists (Some r :: records). split.
    + cbn [map map_throwing]. rewrite Hr, Hmap. reflexivity.
    + constructor; [now exists r | assumption].
Qed.

Lemma runMultiplePromiseAllInLoop_fulfilled race (ds : list Response) :
  runMultiplePromiseAllInLoop race (map Fulfilled ds)
  = Fulfilled (batches_of ds).
Proof.
  unfold runMultiplePromiseAllInLoop.
  now rewrite (loop_fulfilled race ds (List.length ds) 0 []) by lia.
Qed.

Lemma fetchRepositoriesDetails_fulfilled race up (names : list string)
  (fileType owner : string) (ds : list Response) :
  Forall2 (fun X d =>
             fetchSingleRepositoryData up X fileType owner = Fulfilled d)
    names ds ->
  fetchRepositoriesDetails race up names fileType owner
  = map_throwing to_details (map Some ds).
Proof.
  intros H. apply start_all_fulfilled in H.
  unfold fetchRepositoriesDetails. rewrite H.
  rewrite runMultiplePromiseAllInLoop_fulfilled. simpl.
  now rewrite filter_batches.
Qed.

Lemma fetchRepositoriesDetails_rejected race up (names : list string)
  (fileType owner : string) :
  Exists (fun p => is_rejected p = true) (start_all up names fileType owner) ->
  exists e,
    fetchRepositoriesDetails race up names fileType owner = Rejected e
    /\ In (Rejected e) (start_all up names fileType owner).
Proof.
  intros H.
  destruct (loop_rejected race (start_all up names fileType owner)
              (List.length (start_all up names fileType owner)) 0 [])
    as (e & He & Hin); [lia | exact H |].
  exists e. split; [|exact Hin].
  unfold fetchRepositoriesDetails, runMultiplePromiseAllInLoop.
  now rewrite He.
Qed.

(** C1: in every list of records that [fetchRepositoriesDetails] returns, the
    record at the position of a requested name [X] carries as
    [activeWebhooks] exactly what the webhooks fetch returns for the owner
    the caller passed and [X]; the owner login of the tree-fetch metadata
    plays no part in it. *)
Theorem activeWebhooks_of_caller_owner race up (repoNames : list string)
  (fileType owner : string) (records : list (option RepositoryDetails)) :
  fetchRepositoriesDetails race up repoNames fileType owner
  = Fulfilled records ->
  Forall2 (fun X record =>
             exists r, record = Some r
                       /\ getActiveWebhooks up owner X
                          = Fulfilled (details_activeWebhooks r))
    repoNames records.
Proof.
  intros Hres.
  destruct (fulfilled_or_rejected (start_all up repoNames fileType owner))
    as [[ds Hds]|Hrej].
  - apply start_all_fulfilled in Hds.
    rewrite (fetchRepositoriesDetails_fulfilled _ _ _ _ _ _ Hds) in Hres.
    clear race. revert records Hres.
    induction Hds as [|X d names ds HX _ IH]; intros records Hres.
    + injection Hres as <-. constructor.
    + destruct (to_details_fulfilled _ _ _ _ _ HX) as (r & Hr & Hw).
      cbn [map map_throwing] in Hres. rewrite Hr in Hres.
      cbn [await] in Hres.
      destruct (map_throwing to_details (map Some ds)) as [rest|e];
        [|discriminate].
      injection Hres as <-. constructor; [|now apply IH].
      exists r. split; [reflexivity|]. rewrite Hw.
      apply fetchSingleRepositoryData_fulfilled in HX.
      now destruct HX as (? & ? & ? & ? & _ & _ & Hhooks & _).
  - apply (fetchRepositoriesDetails_rejected race) in Hrej as (e & He & _).
    congruence.
Qed.

Lemma activeWebhooks_of_caller_owner_witness :
  let up := Sample.github 3 in
  fetchRepositoriesDetails Sample.no_race up ["a"; "b"; "c"] "yml" "bob"
  = Fulfilled Sample.details_abc
  /\ Forall2 (fun X record =>
                exists r, record = Some r
                          /\ getActiveWebhooks up "bob" X
                             = Fulfilled (details_activeWebhooks r))
       ["a"; "b"; "c"] Sample.details_abc
  /\ map (option_map details_owner) Sample.details_abc
     = [Some "alice"; Some "alice"; Some "alice"].
Proof.
  intros up.
  assert (H : fetchRepositoriesDetails Sample.no_race up ["a"; "b"; "c"]
                "yml" "bob" = Fulfilled Sample.details_abc)
    by (vm_compute; reflexivity).
  split; [exact H|].
  split; [|reflexivity].
  exact (activeWebhooks_of_caller_owner _ _ _ _ _ _ H).
Defined.

Lemma batches_of_odd (ds : list Response) :
  Nat.odd (List.length ds) = true ->
  exists front init d,
    batches_of ds = (front ++ [[Some d; None]])%list
    /\ ds = (init ++ [d])%list.
Proof.
  enough (H : forall vs,
             (Nat.odd (List.length vs) = true ->
              exists front init d,
                batches_of vs = (front ++ [[Some d; None]])%list
                /\ vs = (init ++ [d])%list)
             /\ forall a,
                 Nat.odd (List.length (a :: vs)) = true ->
                 exists front init d,
                   batches_of (a :: vs) = (front ++ [[Some d; None]])%list
                   /\ a :: vs = (init ++ [d])%list) by apply H.
  induction vs as [|b vs [IH1 IH2]]; split.
  - discriminate.
  - intros a _. now exists [], [], a.
  - apply IH2.
  - intros a Hodd.
    destruct IH1 as (front & init & d & Hb & ->); [exact Hodd|].
    exists ([Some a; Some b] :: front), (a :: b :: init), d. split.
    + cbn [batches_of]. now rewrite Hb.
    + reflexivity.
Qed.

(** C3: when the chains of all requested names fulfil, the call returns one
    record per name, in the order of the names, the i-th record built from
    the response of the i-th chain; the loop hands back the responses in
    pairs, and for an odd count the last pair holds the last response and
    [undefined], which does not fail the call and leaves no entry in the
    output. *)
Theorem records_follow_input_order race up (repoNames : list string)
  (fileType owner : string) (ds : list Response) :
  Forall2 (fun X d =>
             fetchSingleRepositoryData up X fileType owner = Fulfilled d)
    repoNames ds ->
  exists records,
    fetchRepositoriesDetails race up repoNames fileType owner
    = Fulfilled records
    /\ Forall2 (fun d record =>
                  exists r, record = Some r
                            /\ to_details (Some d) = Fulfilled (Some r))
         ds records
    /\ List.length records = List.length repoNames
    /\ runMultiplePromiseAllInLoop race (start_all up repoNames fileType owner)
       = Fulfilled (batches_of ds)
    /\ (Nat.odd (List.length repoNames) = true ->
        exists front init d,
          batches_of ds = (front ++ [[Some d; None]])%list
          /\ ds = (init ++ [d])%list).
Proof.
  intros H.
  destruct (map_to_details _ _ _ _ _ H) as (records & Hmap & Hall).
  exists records.
  split; [now rewrite (fetchRepositoriesDetails_fulfilled _ _ _ _ _ _ H)|].
  split; [exact Hall|].
  split; [now rewrite <- (Forall2_length Hall), (Forall2_length H)|].
  split.
  - apply start_all_fulfilled in H as ->.
    apply runMultiplePromiseAllInLoop_fulfilled.
  - rewrite (Forall2_length H). apply batches_of_odd.
Qed.

Lemma records_follow_input_order_witness :
  let up := Sample.github 3 in
  Forall2 (fun X d =>
             fetchSingleRepositoryData up X "yml" "bob" = Fulfilled d)
    ["a"; "b"; "c"] Sample.responses_abc
  /\ fetchRepositoriesDetails Sample.no_race up ["a"; "b"; "c"] "yml" "bob"
     = Fulfilled Sample.details_abc
  /\ map (option_map details_name) Sample.details_abc
     = [Some "a"; Some "b"; Some "c"].
Proof.
  intros up.
  assert (H : Forall2 (fun X d =>
                         fetchSingleRepositoryData up X "yml" "bob"
                         = Fulfilled d)
                ["a"; "b"; "c"] Sample.responses_abc)
    by (repeat constructor).
  split; [exact H|].
  destruct (records_follow_input_order Sample.no_race up _ _ _ _ H)
    as (records & Hres & _).
  split; [|reflexivity].
  rewrite Hres. vm_compute in Hres. now injection Hres as <-.
Defined.

(** ** The recorded path and the content fetch *)

Lemma find_recordable_nonempty ft (fs : list TreeEntry) :
  Forall (fun f => path f <> "") fs ->
  find (recordable ft) fs = find (matches ft) fs.
Proof.
  induction 1 as [|f fs Hf _ IH]; simpl; [reflexivity|].
  unfold recordable at 1.
  destruct (path f) eqn:Hp; [now elim Hf|]. simpl.
  rewrite andb_true_r. now rewrite IH.
Qed.

Lemma find_recordable_none ft (fs : list TreeEntry) :
  find (matches ft) fs = None -> find (recordable ft) fs = None.
Proof.
  induction fs as [|f fs IH]; simpl; [reflexivity|].
  unfold recordable at 1.
  destruct (matches ft f); [discriminate | exact IH].
Qed.

Lemma find_first {A : Type} (p : A -> bool) (before : list A) (x : A)
  (after : list A) :
  Forall (fun y => p y = false) before -> p x = true ->
  find p (before ++ x :: after) = Some x.
Proof.
  induction 1 as [|y before Hy _ IH]; intros Hx; simpl.
  - now rewrite Hx.
  - rewrite Hy. now apply IH.
Qed.

Lemma count_root_entries ft (repo : Repository) (es : list TreeEntry) :
  repo_object repo = Some (Object (Some es)) ->
  count_root ft (Some repo) ""
  = Fulfilled (Some (countFiles es), snd (count_entries ft es "")).
Proof.
  intros H. unfold count_root. rewrite H. simpl.
  now rewrite count_entries_spec.
Qed.

(** The path the walk records, for any entries: that of the first file in
    depth-first pre-order whose extension equals [fileType] and whose path is
    truthy, whatever follows it; the content fetch targets the recorded
    path, and [fileContent] is the text the upstream has there. *)
Lemma first_recordable_match up (X fileType owner : string)
  (es : list TreeEntry) :
  let chosen := snd (count_entries fileType es "") in
  chosen = path_of (find (recordable fileType) (preorder_files es))
  /\ (forall before f after,
         preorder_files es = (before ++ f :: after)%list ->
         Forall (fun g => recordable fileType g = false) before ->
         recordable fileType f = true ->
         chosen = path f)
  /\ (Forall (fun f => path f <> "") (preorder_files es) ->
      chosen = findFirstPathOfType es fileType)
  /\ (find (matches fileType) (preorder_files es) = None -> chosen = "")
  /\ (forall repo d,
         file_details up X = Fulfilled (Some repo) ->
         repo_object repo = Some (Object (Some es)) ->
         fetchSingleRepositoryData up X fileType owner = Fulfilled d ->
         (exists content,
             file_content up X chosen = Fulfilled content
             /\ content_text content = Fulfilled (contentOfSpecificFile d))
         /\ (find (matches fileType) (preorder_files es) = None ->
             (forall content,
                 file_content up X "" = Fulfilled content ->
                 content_text content = Fulfilled None) ->
             contentOfSpecificFile d = None)).
Proof.
  intros chosen.
  assert (Hchosen : chosen
                    = path_of (find (recordable fileType) (preorder_files es))).
  { unfold chosen. rewrite count_entries_spec. simpl. apply visit_all_empty. }
  assert (Hnone : find (matches fileType) (preorder_files es) = None ->
                  chosen = "").
  { intros H. now rewrite Hchosen, (find_recordable_none _ _ H). }
  split; [exact Hchosen|].
  split.
  { intros before f after Hsplit Hbefore Hf.
    now rewrite Hchosen, Hsplit, (find_first _ _ _ _ Hbefore Hf). }
  split.
  { intros H. rewrite Hchosen. unfold findFirstPathOfType.
    now rewrite (find_recordable_nonempty _ _ H). }
  split; [exact Hnone|].
  intros repo d Hdetails Hobj Hd.
  apply fetchSingleRepositoryData_fulfilled in Hd
    as (repo' & files & p & c & Hdetails' & Hcount & _ & Hc & Ht & _ & _).
  rewrite Hdetails in Hdetails'. injection Hdetails' as <-.
  rewrite (count_root_entries _ _ _ Hobj) in Hcount.
  injection Hcount as _ <-. fold chosen in Hc.
  split; [now exists c|].
  intros Hno Hup. rewrite (Hnone Hno) in Hc.
  specialize (Hup c Hc). congruence.
Qed.

(** ** A null root object *)

(** A repository without the fixed branch has a null root [object]; its chain
    does not reject, and neither does the call. *)
Lemma null_object_counterexample :
  let up := Sample.github 3 in
  file_details up "nobranch"
  = Fulfilled (Some (Sample.repository "nobranch" None))
  /\ repo_object (Sample.repository "nobranch" None) = None
  /\ is_rejected (fetchSingleRepositoryData up "nobranch" "yml" "bob") = false
  /\ is_rejected (fetchRepositoriesDetails Sample.no_race up ["nobranch"]
                    "yml" "bob") = false.
Proof. repeat split. Qed.

(** C7, amended: a null root [object] in the tree-fetch response is no
    error: the optional chaining leaves [numberOfFiles] undefined, and the
    chain goes on with the webhooks fetch and the content fetch at the empty
    path.  The read fails with a [TypeError] when the repository itself is
    null, and when the root object is there without [entries]. *)
Theorem absent_fields_of_tree_response up (X fileType owner : string) :
  (forall repo,
      file_details up X = Fulfilled (Some repo) ->
      repo_object repo = None ->
      fetchSingleRepositoryData up X fileType owner
      = (webhooks <- getActiveWebhooks up owner X ;;
         content <- file_content up X "" ;;
         contentOfSpecificFile <- content_text content ;;
         Fulfilled {| data_viewer_repository := Some repo;
                      numberOfFiles := None;
                      activeWebhooks := webhooks;
                      contentOfSpecificFile := contentOfSpecificFile |}))
  /\ (file_details up X = Fulfilled None ->
      exists what,
        fetchSingleRepositoryData up X fileType owner
        = Rejected (TypeError what))
  /\ (forall repo,
         file_details up X = Fulfilled (Some repo) ->
         repo_object repo = Some (Object None) ->
         exists what,
           fetchSingleRepositoryData up X fileType owner
           = Rejected (TypeError what)).
Proof.
  unfold fetchSingleRepositoryData. repeat split.
  - intros repo -> Hobj. simpl. now rewrite Hobj.
  - intros ->. simpl. eauto.
  - intros repo -> Hobj. simpl. rewrite Hobj. simpl. eauto.
Qed.

Lemma absent_fields_of_tree_response_witness :
  let up := Sample.github 3 in
  fetchSingleRepositoryData up "nobranch" "yml" "bob"
  = Fulfilled
      {| data_viewer_repository := Some (Sample.repository "nobranch" None);
         numberOfFiles := None;
         activeWebhooks := JArray [JObject [("url", JString "bob/nobranch")]];
         contentOfSpecificFile := None |}
  /\ (exists what,
         fetchSingleRepositoryData up "gone" "yml" "bob"
         = Rejected (TypeError what))
  /\ (exists what,
         fetchSingleRepositoryData up "commit" "yml" "bob"
         = Rejected (TypeError what)).
Proof.
  intros up.
  split; [|split].
  - rewrite (proj1 (absent_fields_of_tree_response up "nobranch" "yml" "bob")
               (Sample.repository "nobranch" None) eq_refl eq_refl).
    reflexivity.
  - exact (proj1 (proj2 (absent_fields_of_tree_response up "gone" "yml" "bob"))
             eq_refl).
  - exact (proj2 (proj2 (absent_fields_of_tree_response up "commit" "yml"
                           "bob"))
             (Sample.repository "commit" (Some (Object None)))
             eq_refl eq_refl).
Defined.

(** ** The resolver of [listRepositories] *)

Lemma last_page_length {A : Type} (n : nat) (all : list A) :
  List.length (last_page n all) = Nat.min n (List.length all).
Proof. unfold last_page. rewrite length_skipn. lia. Qed.

(** With 101 repositories the page holds the last hundred, not the first. *)
Lemma first_hundred_counterexample :
  let up := Sample.github 101 in
  serves_repositories up (Sample.nodes 101)
  /\ listRepositories up
     <> Fulfilled (map to_summary (firstn 100 (Sample.nodes 101))).
Proof.
  split.
  - intros n. reflexivity.
  - vm_compute. discriminate.
Qed.

(** C6, amended: over a service that pages through the viewer's repositories,
    [listRepositories] returns the records of the page selected by
    [last: 100]: nothing for a viewer without repositories, never more than
    100 records, and with more than 100 repositories exactly 100, which are
    the last 100 in the order of the service; each record carries the name,
    the owner login and the disk usage of its repository. *)
Theorem listRepositories_last_page up (all : list RepositoryNode) :
  serves_repositories up all ->
  exists page,
    listRepositories up = Fulfilled page
    /\ page = map to_summary (last_page 100 all)
    /\ (List.length page <= 100)%nat
    /\ (all = [] -> page = [])
    /\ (100 < List.length all -> List.length page = 100)%nat
    /\ Forall2 (fun node s =>
                  summary_name s = node_name node
                  /\ summary_owner s = login (node_owner node)
                  /\ summary_size s = node_diskUsage node)
         (last_page 100 all) page.
Proof.
  intros Hup. exists (map to_summary (last_page 100 all)).
  split; [unfold listRepositories, api_listRepositories; now rewrite Hup|].
  split; [reflexivity|].
  rewrite length_map, last_page_length.
  split; [lia|]. split; [now intros ->|]. split; [lia|].
  induction (last_page 100 all) as [|node l IH]; simpl; constructor;
    [now repeat split | exact IH].
Qed.

Lemma listRepositories_last_page_witness :
  let up := Sample.github 101 in
  serves_repositories up (Sample.nodes 101)
  /\ listRepositories up
     = Fulfilled (map to_summary (skipn 1 (Sample.nodes 101))).
Proof.
  intros up.
  assert (H : serves_repositories up (Sample.nodes 101))
    by (intros n; reflexivity).
  split; [exact H|].
  destruct (listRepositories_last_page up (Sample.nodes 101) H)
    as (page & -> & -> & _).
  reflexivity.
Defined.

(** * Further properties of the source *)

(** ** The extension of a name *)

Lemma split_last_dot (s : string) :
  JsString.no_dot s = false ->
  exists a b, s = a ++ String "." b /\ JsString.no_dot b = true.
Proof.
  induction s as [|c s IH]; simpl; [discriminate|].
  destruct (JsString.no_dot s) eqn:Hs.
  - rewrite andb_true_r. intros Hc. apply negb_false_iff in Hc.
    apply Ascii.eqb_eq in Hc. subst c. now exists "", s.
  - intros _. destruct (IH eq_refl) as (a & b & -> & Hb).
    now exists (String c a), b.
Qed.

(** X1: the extension the walk compares with [fileType] never contains a
    ['.'] and is a suffix of the name: the whole name when the name has no
    ['.'], and otherwise what follows a ['.'] of the name. *)
Theorem extension_is_dot_free_suffix (entryName : string) :
  JsString.no_dot (extension entryName) = true
  /\ exists before,
      entryName = before ++ extension entryName
      /\ (JsString.no_dot entryName = true -> before = "")
      /\ (JsString.no_dot entryName = false ->
          exists stem, before = stem ++ ".").
Proof.
  destruct (JsString.no_dot entryName) eqn:Hdot.
  - rewrite (extension_no_dot _ Hdot). split; [exact Hdot|].
    exists "". repeat split. discriminate.
  - destruct (split_last_dot _ Hdot) as (a & b & -> & Hb).
    rewrite (extension_after_last_dot _ _ Hb). split; [exact Hb|].
    exists (a ++ "."). split; [|split].
    + clear. induction a as [|c a IH]; simpl; [reflexivity | now rewrite <- IH].
    + discriminate.
    + intros _. now exists a.
Qed.

Lemma extension_is_dot_free_suffix_witness :
  JsString.no_dot "archive.tar.gz" = false
  /\ extension "archive.tar.gz" = "gz"
  /\ JsString.no_dot (extension "archive.tar.gz") = true.
Proof.
  split; [reflexivity|]. split; [reflexivity|].
  exact (proj1 (extension_is_dot_free_suffix "archive.tar.gz")).
Defined.

(** ** More on the walk *)

Lemma countFiles_app (es1 es2 : list TreeEntry) :
  countFiles (es1 ++ es2) = countFiles es1 + countFiles es2.
Proof. unfold countFiles. now rewrite map_app, sumZ_app. Qed.

(** X2: walking a concatenation is walking the first part and then the
    second from the variable the first part left: the numbers add up, and
    the recorded path is the one the second walk ends with. *)
Theorem count_entries_app (fileType : string) (es1 es2 : list TreeEntry)
  (fileTypePath : string) :
  count_entries fileType (es1 ++ es2) fileTypePath
  = (fst (count_entries fileType es1 fileTypePath)
     + fst (count_entries fileType es2
              (snd (count_entries fileType es1 fileTypePath))),
     snd (count_entries fileType es2
            (snd (count_entries fileType es1 fileTypePath)))).
Proof.
  rewrite !count_entries_spec. simpl.
  unfold preorder_files. rewrite flat_map_app, visit_all_app.
  now rewrite countFiles_app.
Qed.

(** X3: in a sequence without directory entries the count is the number of
    entries of type ["blob"]; an entry of any other type (a submodule, of
    type ["commit"]) adds nothing. *)
Theorem count_without_directories (fileType : string) (es : list TreeEntry)
  (fileTypePath : string) :
  Forall (fun e => type e <> "tree") es ->
  fst (count_entries fileType es fileTypePath)
  = Z.of_nat (List.length (filter is_blob es)).
Proof.
  intros H. rewrite count_entries_spec. simpl.
  induction H as [|e es He _ IH]; [reflexivity|].
  rewrite countFiles_cons, IH, countFiles_entry_unfold. simpl filter.
  unfold is_blob at 2.
  destruct (type e =? "blob")%string; simpl List.length; [lia|].
  destruct (String.eqb_spec (type e) "tree"); [contradiction | lia].
Qed.

Lemma count_without_directories_witness :
  let es := [Sample.blob "a" "a"; Entry "commit" "vendor" "vendor" None;
             Sample.blob "b.yml" "b.yml"] in
  Forall (fun e => type e <> "tree") es
  /\ fst (count_entries "yml" es "") = 2.
Proof.
  intros es.
  assert (H : Forall (fun e => type e <> "tree") es)
    by (repeat constructor; discriminate).
  split; [exact H|].
  exact (count_without_directories "yml" es "" H).
Defined.

Lemma files_of_are_blobs (e f : TreeEntry) :
  In f (files_of e) -> type f = "blob".
Proof.
  induction e as [ty n q o Ho | ty n q cs IH] using TreeEntry_children_ind;
    simpl.
  - destruct (String.eqb_spec ty "blob") as [->|_].
    + intros [<-|[]]. reflexivity.
    + destruct (ty =? "tree")%string; [|contradiction].
      destruct o as [[[cs|]]|]; [discriminate Ho | contradiction..].
  - destruct (String.eqb_spec ty "blob") as [->|_].
    + intros [<-|[]]. reflexivity.
    + destruct (ty =? "tree")%string; [|contradiction].
      intros Hin. apply in_flat_map in Hin as (c & Hc & Hf).
      rewrite Forall_forall in IH. now apply (IH c).
Qed.

(** X4: the walk never changes a non-empty [fileTypePath], and started from
    the empty one it ends with the empty string or with the path of an entry
    of type ["blob"] of the tree whose extension equals [fileType]: never
    with the path of a directory or of a file of another extension. *)
Theorem recorded_path_is_a_matching_file (fileType : string)
  (es : list TreeEntry) :
  (forall fileTypePath,
      JsString.truthy fileTypePath = true ->
      snd (count_entries fileType es fileTypePath) = fileTypePath)
  /\ (snd (count_entries fileType es "") = ""
      \/ exists f,
          In f (preorder_files es)
          /\ type f = "blob"
          /\ extension (name f) = fileType
          /\ path f = snd (count_entries fileType es "")).
Proof.
  split.
  - intros p Hp. rewrite count_entries_spec. now apply visit_all_truthy.
  - rewrite count_entries_spec. simpl. rewrite visit_all_empty.
    destruct (find (recordable fileType) (preorder_files es)) as [f|] eqn:Hf;
      [right | now left].
    apply find_some in Hf as [Hin Hrec].
    apply andb_true_iff in Hrec as [Hm _].
    exists f. repeat split; try assumption.
    + apply in_flat_map in Hin as (e & _ & Hfe).
      now apply (files_of_are_blobs e).
    + now apply String.eqb_eq.
Qed.

Lemma recorded_path_is_a_matching_file_witness :
  JsString.truthy "kept.yml" = true
  /\ snd (count_entries "yml" Sample.tree "kept.yml") = "kept.yml".
Proof.
  split; [reflexivity|].
  exact (proj1 (recorded_path_is_a_matching_file "yml" Sample.tree)
           "kept.yml" eq_refl).
Defined.

(** ** What the query lets the walk see *)

Lemma sumZ_map_le {A : Type} (f g : A -> Z) (l : list A) :
  Forall (fun x => f x <= g x) l -> sumZ (map f l) <= sumZ (map g l).
Proof. induction 1; simpl; lia. Qed.

Lemma sumZ_map_eq {A : Type} (f g : A -> Z) (l : list A) :
  Forall (fun x => f x = g x) l -> sumZ (map f l) = sumZ (map g l).
Proof. induction 1; simpl; congruence. Qed.

Lemma countFiles_select_entry_le (e : TreeEntry) :
  forall levels,
    countFiles_entry (select_entry levels e) <= countFiles_entry e.
Proof.
  induction e as [ty n q o Ho | ty n q cs IH] using TreeEntry_children_ind;
    intros levels.
  - destruct o as [[[cs|]]|]; [discriminate Ho | |];
      destruct levels; simpl;
      destruct (ty =? "blob")%string; try lia;
      destruct (ty =? "tree")%string; lia.
  - pose proof (countFiles_entry_nonneg (Entry ty n q (Some (Object (Some cs)))))
      as Hnn.
    destruct levels as [|k]; simpl in *;
      destruct (ty =? "blob")%string; try lia;
      destruct (ty =? "tree")%string; try lia.
    rewrite map_map. apply sumZ_map_le.
    eapply Forall_impl; [|exact IH]. intros c Hc. apply Hc.
Qed.

Lemma countFiles_select_entry_within (e : TreeEntry) :
  forall levels,
    within levels e = true ->
    countFiles_entry (select_entry levels e) = countFiles_entry e.
Proof.
  induction e as [ty n q o Ho | ty n q cs IH] using TreeEntry_children_ind;
    intros levels Hw.
  - destruct o as [[[cs|]]|]; [discriminate Ho | |];
      destruct levels; simpl;
      destruct (ty =? "blob")%string; try reflexivity;
      destruct (ty =? "tree")%string; reflexivity.
  - destruct levels as [|k]; simpl in *; [discriminate Hw|].
    destruct (ty =? "blob")%string; [reflexivity|].
    destruct (ty =? "tree")%string; [|reflexivity].
    rewrite map_map. apply sumZ_map_eq.
    rewrite forallb_forall in Hw. rewrite Forall_forall in IH |- *.
    intros c Hc. apply IH; [exact Hc | now apply Hw].
Qed.

(** X5: the number counted over what the file-details query selects of a
    tree never exceeds the number counted over the tree itself, and is the
    same when no directory of the tree is expanded more than two directories
    down. *)
Theorem selection_never_adds_files (fileType : string) (es : list TreeEntry)
  (fileTypePath : string) :
  fst (count_entries fileType (FileDetails_selection es) fileTypePath)
  <= fst (count_entries fileType es fileTypePath)
  /\ (forallb (within 2) es = true ->
      fst (count_entries fileType (FileDetails_selection es) fileTypePath)
      = fst (count_entries fileType es fileTypePath)).
Proof.
  rewrite !count_entries_spec. simpl.
  unfold countFiles, FileDetails_selection. rewrite map_map. split.
  - apply sumZ_map_le, Forall_forall. intros e _.
    apply countFiles_select_entry_le.
  - intros Hw. apply sumZ_map_eq, Forall_forall. intros e He.
    apply countFiles_select_entry_within.
    rewrite forallb_forall in Hw. now apply Hw.
Qed.

Lemma selection_never_adds_files_witness :
  forallb (within 2) Sample.tree = true
  /\ fst (count_entries "yml" (FileDetails_selection Sample.tree) "")
     = fst (count_entries "yml" Sample.tree "")
  /\ fst (count_entries "yml"
            (FileDetails_selection
               [nest 4 (Sample.blob "deep.yml" "a/b/c/d/deep.yml")]) "")
     <= fst (count_entries "yml"
               [nest 4 (Sample.blob "deep.yml" "a/b/c/d/deep.yml")] "").
Proof.
  split; [reflexivity|]. split.
  - exact (proj2 (selection_never_adds_files "yml" Sample.tree "") eq_refl).
  - exact (proj1 (selection_never_adds_files "yml"
                    [nest 4 (Sample.blob "deep.yml" "a/b/c/d/deep.yml")] "")).
Defined.

(** ** The outcome of one chain *)

Lemma count_root_fulfilled ft (repo : Repository) :
  count_root ft (Some repo) ""
  = match repo_object repo with
    | Some (Object None) => Rejected (TypeError "entries.reduce")
    | _ => Fulfilled (option_map countFiles (root_entries repo),
                      recorded_path ft repo)
    end.
Proof.
  unfold count_root, recorded_path, root_entries.
  destruct (repo_object repo) as [[[es|]]|]; simpl; try reflexivity.
  now rewrite count_entries_spec.
Qed.

(** X6: a chain fulfils exactly when the tree fetch returns a repository
    whose root object is null or has entries, the webhooks fetch fulfils, and
    the content fetch at the recorded path returns a repository; nothing
    else decides it. *)
Theorem chain_fulfils_iff up (repoName fileType owner : string) :
  is_rejected (fetchSingleRepositoryData up repoName fileType owner) = false
  <-> exists repo webhooks content,
      file_details up repoName = Fulfilled (Some repo)
      /\ repo_object repo <> Some (Object None)
      /\ getActiveWebhooks up owner repoName = Fulfilled webhooks
      /\ file_content up repoName (recorded_path fileType repo)
         = Fulfilled (Some content).
Proof.
  unfold fetchSingleRepositoryData. split.
  - destruct (file_details up repoName) as [[repo|]|e]; cbn [await];
      [|discriminate..].
    rewrite count_root_fulfilled.
    destruct (repo_object repo) as [[[es|]]|] eqn:Hobj; cbn [await];
      try discriminate;
      destruct (getActiveWebhooks up owner repoName) as [w|e]; cbn [await];
      try discriminate;
      destruct (file_content up repoName (recorded_path fileType repo))
        as [[c|]|e] eqn:Hc; cbn [await content_text]; try discriminate;
      intros _; exists repo, w, c; rewrite Hobj; repeat split;
      try assumption; discriminate.
  - intros (repo & w & c & -> & Hobj & -> & Hc). cbn [await].
    rewrite count_root_fulfilled.
    destruct (repo_object repo) as [[[es|]]|]; cbn [await];
      try (now elim Hobj); now rewrite Hc.
Qed.

Lemma chain_fulfils_iff_witness :
  is_rejected (fetchSingleRepositoryData (Sample.github 3) "a" "yml" "bob")
  = false
  /\ exists repo webhooks content,
      file_details (Sample.github 3) "a" = Fulfilled (Some repo)
      /\ repo_object repo <> Some (Object None)
      /\ getActiveWebhooks (Sample.github 3) "bob" "a" = Fulfilled webhooks
      /\ file_content (Sample.github 3) "a" (recorded_path "yml" repo)
         = Fulfilled (Some content).
Proof.
  split; [reflexivity|].
  exact (proj1 (chain_fulfils_iff (Sample.github 3) "a" "yml" "bob") eq_refl).
Defined.

(** X7: a chain reports the first failure in the order of its calls: a
    rejected tree fetch whatever the other two fetches would give, then a
    rejected webhooks fetch whatever the content fetch would give, then a
    rejected content fetch, and a [TypeError] when the content fetch returns
    a null repository. *)
Theorem chain_errors_in_call_order up (repoName fileType owner : string)
  (e : error) :
  (file_details up repoName = Rejected e ->
   fetchSingleRepositoryData up repoName fileType owner = Rejected e)
  /\ (forall repo,
         file_details up repoName = Fulfilled (Some repo) ->
         repo_object repo <> Some (Object None) ->
         getActiveWebhooks up owner repoName = Rejected e ->
         fetchSingleRepositoryData up repoName fileType owner = Rejected e)
  /\ (forall repo webhooks,
         file_details up repoName = Fulfilled (Some repo) ->
         repo_object repo <> Some (Object None) ->
         getActiveWebhooks up owner repoName = Fulfilled webhooks ->
         (file_content up repoName (recorded_path fileType repo) = Rejected e ->
          fetchSingleRepositoryData up repoName fileType owner = Rejected e)
         /\ (file_content up repoName (recorded_path fileType repo)
             = Fulfilled None ->
             exists what,
               fetchSingleRepositoryData up repoName fileType owner
               = Rejected (TypeError what))).
Proof.
  unfold fetchSingleRepositoryData. split; [|split].
  - now intros ->.
  - intros repo -> Hobj ->. cbn [await]. rewrite count_root_fulfilled.
    destruct (repo_object repo) as [[[es|]]|]; try reflexivity.
    now elim Hobj.
  - intros repo w -> Hobj ->. cbn [await]. rewrite count_root_fulfilled.
    destruct (repo_object repo) as [[[es|]]|]; try (now elim Hobj);
      cbn [await]; split; intros ->; cbn [await content_text]; eauto.
Qed.

Lemma chain_errors_in_call_order_witness :
  file_details (Sample.github 3) "missing"
  = Rejected (UpstreamError "NOT_FOUND")
  /\ fetchSingleRepositoryData (Sample.github 3) "missing" "yml" "bob"
     = Rejected (UpstreamError "NOT_FOUND").
Proof.
  split; [reflexivity|].
  exact (proj1 (chain_errors_in_call_order (Sample.github 3) "missing" "yml"
                  "bob" (UpstreamError "NOT_FOUND")) eq_refl).
Defined.

(** The steps behind a fulfilled chain, with what each left in the
    response. *)
Lemma fulfilled_chain_steps up (repoName fileType owner : string)
  (d : Response) :
  fetchSingleRepositoryData up repoName fileType owner = Fulfilled d ->
  exists repo content,
    file_details up repoName = Fulfilled (Some repo)
    /\ repo_object repo <> Some (Object None)
    /\ data_viewer_repository d = Some repo
    /\ numberOfFiles d = option_map countFiles (root_entries repo)
    /\ file_content up repoName (recorded_path fileType repo)
       = Fulfilled (Some content)
    /\ contentOfSpecificFile d
       = match content_object content with
         | Some b => text b
         | None => None
         end.
Proof.
  intros H.
  apply fetchSingleRepositoryData_fulfilled in H
    as (repo & files & p & c & Hdetails & Hcount & _ & Hc & Ht & Hdata & Hn).
  rewrite count_root_fulfilled in Hcount.
  assert (Hobj : repo_object repo <> Some (Object None)
                 /\ files = option_map countFiles (root_entries repo)
                 /\ p = recorded_path fileType repo).
  { destruct (repo_object repo) as [[[es|]]|]; try discriminate;
      injection Hcount as <- <-; repeat split; discriminate. }
  destruct Hobj as (Hobj & -> & ->).
  destruct c as [c|]; [|discriminate Ht]. injection Ht as Ht.
  exists repo, c. repeat split; try assumption; now symmetry.
Qed.

(** X8: the response of a fulfilled chain carries the repository of the tree
    fetch unchanged; its [numberOfFiles] is the count over the root entries,
    so never negative, and undefined exactly when the root object is null;
    its [contentOfSpecificFile] is the text of the object the content fetch
    found at the recorded path, undefined when it found none. *)
Theorem fulfilled_response_contents up (repoName fileType owner : string)
  (d : Response) :
  fetchSingleRepositoryData up repoName fileType owner = Fulfilled d ->
  exists repo content,
    file_details up repoName = Fulfilled (Some repo)
    /\ data_viewer_repository d = Some repo
    /\ numberOfFiles d = option_map countFiles (root_entries repo)
    /\ (forall n, numberOfFiles d = Some n -> 0 <= n)
    /\ (numberOfFiles d = None <-> repo_object repo = None)
    /\ file_content up repoName (recorded_path fileType repo)
       = Fulfilled (Some content)
    /\ contentOfSpecificFile d
       = match content_object content with
         | Some b => text b
         | None => None
         end.
Proof.
  intros H.
  destruct (fulfilled_chain_steps _ _ _ _ _ H)
    as (repo & c & Hdetails & Hobj & Hdata & Hn & Hc & Ht).
  exists repo, c. repeat split; try assumption.
  - intros n Hsome. rewrite Hn in Hsome.
    destruct (root_entries repo) as [es|]; [|discriminate].
    injection Hsome as <-. apply countFiles_nonneg.
  - rewrite Hn. unfold root_entries.
    destruct (repo_object repo) as [[[es|]]|]; simpl; intros Hx;
      [discriminate Hx | now elim Hobj | reflexivity].
  - intros Hnull. rewrite Hn. unfold root_entries. now rewrite Hnull.
Qed.

Lemma fulfilled_response_contents_witness :
  exists d,
    fetchSingleRepositoryData (Sample.github 3) "a" "yml" "bob" = Fulfilled d
    /\ numberOfFiles d = Some 4
    /\ contentOfSpecificFile d = Some "text of src/ci/build.yml".
Proof.
  destruct (fetchSingleRepositoryData (Sample.github 3) "a" "yml" "bob")
    as [d|e] eqn:Hd; [|discriminate Hd].
  exists d. split; [reflexivity|].
  destruct (fulfilled_response_contents _ _ _ _ _ Hd)
    as (repo & content & Hdetails & _ & Hn & _ & _ & Hc & Ht).
  injection Hdetails as <-.
  split; [exact Hn|].
  rewrite Ht. injection Hc as <-. reflexivity.
Defined.

(** ** The two queries of a chain on one state of the service *)

Lemma sample_one_snapshot (count : nat) :
  one_snapshot (Sample.github count) sample_resolve.
Proof.
  intros X. unfold sample_resolve, tree_expression, content_expression.
  simpl file_details. simpl file_content. split.
  - intros repo.
    destruct (String.eqb_spec X "missing") as [->|_]; [discriminate|].
    destruct (String.eqb_spec X "gone") as [->|_]; [discriminate|].
    destruct (String.eqb_spec X "nobranch") as [->|_];
      [now intros [= <-]|].
    destruct (String.eqb_spec X "commit") as [->|_]; now intros [= <-].
  - intros p c.
    destruct (String.eqb_spec X "nobranch") as [->|_];
      [now intros [= <-]|].
    destruct p as [|a p]; intros [= <-]; simpl.
    + now destruct (X =? "commit")%string.
    + reflexivity.
Qed.

(** X9: when the two repository queries of a chain read one state of the
    service, a chain that recorded no path leaves [contentOfSpecificFile]
    undefined: its content query then asks for the expression of the root
    object, which is a tree or does not resolve, and neither has a text.
    The [numberOfFiles] is then the count over what the query selects of
    the root tree of that state, at most the number of files of the tree. *)
Theorem no_recorded_path_no_content up resolve
  (repoName fileType owner : string) (d : Response) :
  one_snapshot up resolve ->
  fetchSingleRepositoryData up repoName fileType owner = Fulfilled d ->
  exists repo,
    file_details up repoName = Fulfilled (Some repo)
    /\ (recorded_path fileType repo = "" -> contentOfSpecificFile d = None)
    /\ match resolve repoName tree_expression with
       | None => numberOfFiles d = None
       | Some (TreeValue es) =>
           numberOfFiles d = Some (countFiles (FileDetails_selection es))
           /\ countFiles (FileDetails_selection es) <= countFiles es
       | Some _ => False
       end.
Proof.
  intros Hsnap H.
  destruct (fulfilled_chain_steps _ _ _ _ _ H)
    as (repo & c & Hdetails & Hobj & _ & Hn & Hc & Ht).
  destruct (Hsnap repoName) as [Htree Hblob].
  specialize (Htree repo Hdetails).
  exists repo. split; [exact Hdetails|]. split.
  - intros Hpath. rewrite Hpath in Hc.
    rewrite Ht, (Hblob "" c Hc).
    change (content_expression "") with tree_expression.
    destruct (resolve repoName tree_expression) as [[es|t|]|];
      try reflexivity; now elim Hobj.
  - rewrite Hn. unfold root_entries. rewrite Htree.
    destruct (resolve repoName tree_expression) as [[es|t|]|];
      simpl; try reflexivity; try (apply Hobj; now rewrite Htree).
    split; [reflexivity|].
    unfold countFiles, FileDetails_selection. rewrite map_map.
    apply sumZ_map_le, Forall_forall. intros e _.
    apply countFiles_select_entry_le.
Qed.

Lemma no_recorded_path_no_content_witness :
  one_snapshot (Sample.github 3) sample_resolve
  /\ exists d,
      fetchSingleRepositoryData (Sample.github 3) "a" "toml" "bob"
      = Fulfilled d
      /\ contentOfSpecificFile d = None
      /\ numberOfFiles d = Some 4.
Proof.
  split; [apply sample_one_snapshot|].
  destruct (fetchSingleRepositoryData (Sample.github 3) "a" "toml" "bob")
    as [d|e] eqn:Hd; [|discriminate Hd].
  exists d. split; [reflexivity|].
  destruct (no_recorded_path_no_content _ _ _ _ _ _
              (sample_one_snapshot 3) Hd) as (repo & Hdetails & Hnone & Hn).
  injection Hdetails as <-.
  split; [now apply Hnone | exact (proj1 Hn)].
Defined.

(** ** More on the resolver of [fetchRepositoriesDetails] *)

Lemma map_throwing_fulfilled {A B : Type} (f : A -> result B) (l : list A)
  (ys : list B) :
  map_throwing f l = Fulfilled ys ->
  Forall2 (fun x y => f x = Fulfilled y) l ys.
Proof.
  revert ys. induction l as [|x l IH]; intros ys; simpl.
  - intros [= <-]. constructor.
  - destruct (f x) as [y|e] eqn:Hx; [|discriminate]. cbn [await].
    destruct (map_throwing f l) as [ys'|e]; [|discriminate]. cbn [await].
    intros [= <-]. constructor; [exact Hx | now apply IH].
Qed.

(** A call that fulfils went through fulfilled chains only. *)
Lemma fetchRepositoriesDetails_fulfilled_inv race up (names : list string)
  (fileType owner : string) (records : list (option RepositoryDetails)) :
  fetchRepositoriesDetails race up names fileType owner = Fulfilled records ->
  exists ds,
    Forall2 (fun X d =>
               fetchSingleRepositoryData up X fileType owner = Fulfilled d)
      names ds
    /\ map_throwing to_details (map Some ds) = Fulfilled records.
Proof.
  intros Hres.
  destruct (fulfilled_or_rejected (start_all up names fileType owner))
    as [[ds Hds]|Hrej].
  - apply start_all_fulfilled in Hds. exists ds. split; [exact Hds|].
    now rewrite <- (fetchRepositoriesDetails_fulfilled race _ _ _ _ _ Hds).
  - apply (fetchRepositoriesDetails_rejected race) in Hrej as (e & He & _).
    congruence.
Qed.

Lemma chains_of_unrejected up (names : list string) (fileType owner : string) :
  Forall (fun X =>
            is_rejected (fetchSingleRepositoryData up X fileType owner)
            = false) names ->
  exists ds,
    Forall2 (fun X d =>
               fetchSingleRepositoryData up X fileType owner = Fulfilled d)
      names ds.
Proof.
  induction 1 as [|X names HX _ [ds IH]].
  - exists []. constructor.
  - destruct (fetchSingleRepositoryData up X fileType owner) as [d|e] eqn:Hd;
      [|discriminate HX].
    exists (d :: ds). now constructor.
Qed.

(** X10: in a list that the call returns, the record at the position of a
    name takes [name], [visibility], [size] and [owner] from the repository
    the tree fetch returned for that name (not from the requested name or
    the owner argument), [numberOfFiles] from the count over its root
    entries, and [fileContent] and [activeWebhooks] from the response of the
    chain. *)
Theorem records_merge_the_chain race up (repoNames : list string)
  (fileType owner : string) (records : list (option RepositoryDetails)) :
  fetchRepositoriesDetails race up repoNames fileType owner
  = Fulfilled records ->
  Forall2 (fun X record =>
             exists repo d,
               file_details up X = Fulfilled (Some repo)
               /\ fetchSingleRepositoryData up X fileType owner = Fulfilled d
               /\ record
                  = Some {| details_name := repo_name repo;
                            details_visibility := repo_visibility repo;
                            details_size := repo_diskUsage repo;
                            details_owner := login (repo_owner repo);
                            details_numberOfFiles :=
                              option_map countFiles (root_entries repo);
                            details_fileContent := contentOfSpecificFile d;
                            details_activeWebhooks := activeWebhooks d |})
    repoNames records.
Proof.
  intros Hres.
  apply fetchRepositoriesDetails_fulfilled_inv in Hres as (ds & Hds & Hmap).
  apply map_throwing_fulfilled in Hmap.
  revert records Hmap.
  induction Hds as [|X d names ds HX _ IH]; intros records Hmap;
    inversion Hmap as [|? record ? rest Hrec Hrest]; subst; constructor.
  - destruct (fulfilled_chain_steps _ _ _ _ _ HX)
      as (repo & c & Hdetails & _ & Hdata & Hn & _).
    exists repo, d. repeat split; try assumption.
    simpl in Hrec. rewrite Hdata in Hrec. injection Hrec as <-.
    now rewrite Hn.
  - now apply IH.
Qed.

Lemma records_merge_the_chain_witness :
  fetchRepositoriesDetails Sample.no_race (Sample.github 3) ["a"; "b"; "c"]
    "yml" "bob" = Fulfilled Sample.details_abc
  /\ List.length Sample.details_abc = 3%nat.
Proof.
  assert (H : fetchRepositoriesDetails Sample.no_race (Sample.github 3)
                ["a"; "b"; "c"] "yml" "bob" = Fulfilled Sample.details_abc)
    by (vm_compute; reflexivity).
  split; [exact H|].
  exact (eq_sym (Forall2_length (records_merge_the_chain _ _ _ _ _ _ H))).
Defined.

(** X11: the call fulfils exactly when the chain of every requested name
    fulfils: the final [filter] and [map] add no failure of their own.  With
    no names at all it returns the empty list, whatever the service would
    answer. *)
Theorem call_fulfils_iff_all_chains_fulfil race up (repoNames : list string)
  (fileType owner : string) :
  (is_rejected (fetchRepositoriesDetails race up repoNames fileType owner)
   = false
   <-> Forall (fun X =>
                 is_rejected (fetchSingleRepositoryData up X fileType owner)
                 = false) repoNames)
  /\ fetchRepositoriesDetails race up [] fileType owner = Fulfilled [].
Proof.
  split; [split|].
  - destruct (fetchRepositoriesDetails race up repoNames fileType owner)
      as [records|e] eqn:Hres; [intros _ | discriminate].
    apply fetchRepositoriesDetails_fulfilled_inv in Hres as (ds & Hds & _).
    induction Hds as [|X d names ds HX _ IH]; constructor;
      [now rewrite HX | exact IH].
  - intros Hall. apply chains_of_unrejected in Hall as [ds Hds].
    destruct (map_to_details _ _ _ _ _ Hds) as (records & Hmap & _).
    now rewrite (fetchRepositoriesDetails_fulfilled race _ _ _ _ _ Hds), Hmap.
  - now rewrite (fetchRepositoriesDetails_fulfilled race up [] fileType owner
                   [] (Forall2_nil _)).
Qed.

Lemma call_fulfils_iff_all_chains_fulfil_witness :
  is_rejected
    (fetchRepositoriesDetails Sample.no_race (Sample.github 3)
       ["a"; "nobranch"] "yml" "bob") = false
  /\ is_rejected
       (fetchRepositoriesDetails Sample.no_race (Sample.github 3)
          [] "yml" "bob") = false.
Proof.
  destruct (call_fulfils_iff_all_chains_fulfil Sample.no_race
              (Sample.github 3) ["a"; "nobranch"] "yml" "bob")
    as [[_ Hall] Hnil].
  split; [|now rewrite Hnil].
  apply Hall. repeat constructor.
Defined.

(** X12: the order in which two promises of a pair reject decides at most
    which reason a rejected call carries: whether the call rejects, and the
    list it returns when it fulfils, are the same for every order. *)
Theorem race_only_picks_the_reason race race' up (repoNames : list string)
  (fileType owner : string) :
  is_rejected (fetchRepositoriesDetails race up repoNames fileType owner)
  = is_rejected (fetchRepositoriesDetails race' up repoNames fileType owner)
  /\ (forall records,
         fetchRepositoriesDetails race up repoNames fileType owner
         = Fulfilled records ->
         fetchRepositoriesDetails race' up repoNames fileType owner
         = Fulfilled records).
Proof.
  destruct (fulfilled_or_rejected (start_all up repoNames fileType owner))
    as [[ds Hds]|Hrej].
  - apply start_all_fulfilled in Hds.
    rewrite !(fetchRepositoriesDetails_fulfilled _ _ _ _ _ _ Hds).
    now split.
  - destruct (fetchRepositoriesDetails_rejected race _ _ _ _ Hrej)
      as (e & -> & _).
    destruct (fetchRepositoriesDetails_rejected race' _ _ _ _ Hrej)
      as (e' & -> & _).
    split; [reflexivity | discriminate].
Qed.

Lemma race_only_picks_the_reason_witness :
  fetchRepositoriesDetails Sample.no_race (Sample.github 3) ["a"; "b"; "c"]
    "yml" "bob" = Fulfilled Sample.details_abc
  /\ fetchRepositoriesDetails (fun _ => true) (Sample.github 3)
       ["a"; "b"; "c"] "yml" "bob" = Fulfilled Sample.details_abc.
Proof.
  assert (H : fetchRepositoriesDetails Sample.no_race (Sample.github 3)
                ["a"; "b"; "c"] "yml" "bob" = Fulfilled Sample.details_abc)
    by (vm_compute; reflexivity).
  split; [exact H|].
  exact (proj2 (race_only_picks_the_reason Sample.no_race (fun _ => true)
                  (Sample.github 3) ["a"; "b"; "c"] "yml" "bob") _ H).
Defined.

(** ** More on the loop *)

Lemma batches_of_shape (values : list Response) :
  List.length (batches_of values) = Nat.div2 (S (List.length values))
  /\ Forall (fun batch => List.length batch = 2%nat) (batches_of values).
Proof.
  enough (H : forall vs,
             (List.length (batches_of vs) = Nat.div2 (S (List.length vs))
              /\ Forall (fun batch => List.length batch = 2%nat)
                   (batches_of vs))
             /\ forall a,
                 List.length (batches_of (a :: vs))
                 = Nat.div2 (S (List.length (a :: vs)))
                 /\ Forall (fun batch => List.length batch = 2%nat)
                      (batches_of (a :: vs))) by apply H.
  induction vs as [|b vs [[IHl IHf] IH2]]; split.
  - split; [reflexivity | constructor].
  - intros a. split; [reflexivity | now repeat constructor].
  - apply IH2.
  - intros a. cbn [batches_of List.length]. split.
    + rewrite IHl. reflexivity.
    + constructor; [reflexivity | exact IHf].
Qed.

(** X13: when the loop fulfils, it hands back one batch for every two
    promises, rounded up, and every batch has exactly two slots, so the
    flattened array has an even length at least that of the input. *)
Theorem loop_batches_in_twos race (promises : list (result Response))
  (batches : list (list (option Response))) :
  runMultiplePromiseAllInLoop race promises = Fulfilled batches ->
  List.length batches = Nat.div2 (S (List.length promises))
  /\ Forall (fun batch => List.length batch = 2%nat) batches
  /\ List.length (List.concat batches) = (2 * List.length batches)%nat.
Proof.
  intros H.
  destruct (fulfilled_or_rejected promises) as [[vs ->]|Hrej].
  - rewrite runMultiplePromiseAllInLoop_fulfilled in H. injection H as <-.
    rewrite length_map.
    destruct (batches_of_shape vs) as [Hl Hf]. repeat split; try assumption.
    clear Hl. induction Hf as [|batch rest Hb _ IH]; [reflexivity|].
    simpl. rewrite length_app, Hb, IH. lia.
  - destruct (loop_rejected race promises (List.length promises) 0 [])
      as (e & He & _); [lia | exact Hrej |].
    unfold runMultiplePromiseAllInLoop in H. congruence.
Qed.

Lemma loop_batches_in_twos_witness :
  runMultiplePromiseAllInLoop Sample.no_race
    (map Fulfilled Sample.responses_abc)
  = Fulfilled (batches_of Sample.responses_abc)
  /\ List.length (batches_of Sample.responses_abc) = 2%nat.
Proof.
  assert (H : runMultiplePromiseAllInLoop Sample.no_race
                (map Fulfilled Sample.responses_abc)
              = Fulfilled (batches_of Sample.responses_abc))
    by apply runMultiplePromiseAllInLoop_fulfilled.
  split; [exact H|].
  exact (proj1 (loop_batches_in_twos _ _ _ H)).
Defined.

(** The loop passes over an even number of fulfilled promises, collecting
    their batches. *)
Lemma loop_over_fulfilled race (values : list Response) :
  Nat.even (List.length values) = true ->
  forall before rest results,
    loop race (before ++ map Fulfilled values ++ rest)
      (List.length before) results
    = loop race (before ++ map Fulfilled values ++ rest)
        (List.length before + List.length values)
        (results ++ batches_of values).
Proof.
  enough (H : forall vs,
             (Nat.even (List.length vs) = true ->
              forall before rest results,
                loop race (before ++ map Fulfilled vs ++ rest)
                  (List.length before) results
                = loop race (before ++ map Fulfilled vs ++ rest)
                    (List.length before + List.length vs)
                    (results ++ batches_of vs))
             /\ forall a,
                 Nat.even (List.length (a :: vs)) = true ->
                 forall before rest results,
                   loop race (before ++ map Fulfilled (a :: vs) ++ rest)
                     (List.length before) results
                   = loop race (before ++ map Fulfilled (a :: vs) ++ rest)
                       (List.length before + List.length (a :: vs))
                       (results ++ batches_of (a :: vs))) by apply H.
  induction vs as [|b vs [IH1 IH2]]; split.
  - intros _ before rest results. simpl.
    now rewrite Nat.add_0_r, app_nil_r.
  - intros a Hodd. discriminate Hodd.
  - apply IH2.
  - intros a Heven before rest results.
    rewrite loop_step.
    destruct (lt_dec (List.length before)
                (List.length (before ++ map Fulfilled (a :: b :: vs) ++ rest)))
      as [_|Hge];
      [|elim Hge; rewrite length_app; simpl; lia].
    assert (H0 : nth_error
                   (before ++ map Fulfilled (a :: b :: vs) ++ rest)
                   (List.length before) = Some (Fulfilled a))
      by (rewrite nth_error_app2 by lia; now rewrite Nat.sub_diag).
    assert (H1 : nth_error
                   (before ++ map Fulfilled (a :: b :: vs) ++ rest)
                   (List.length before + 1) = Some (Fulfilled b)).
    { rewrite nth_error_app2 by lia.
      now replace (List.length before + 1 - List.length before)%nat
        with 1%nat by lia. }
    rewrite H0, H1. clear H0 H1.
    cbn [map app promise_all_pair].
    replace (before ++ Fulfilled a :: Fulfilled b :: map Fulfilled vs ++ rest)%list
      with ((before ++ [Fulfilled a; Fulfilled b])
              ++ map Fulfilled vs ++ rest)%list
      by (now rewrite <- app_assoc).
    replace (List.length before + 2)%nat
      with (List.length (before ++ [Fulfilled a; Fulfilled b])%list)
      by (rewrite length_app; reflexivity).
    rewrite IH1 by exact Heven.
    rewrite length_app, <- app_assoc. cbn [List.length batches_of app].
    f_equal; try lia. now rewrite <- app_assoc.
Qed.

(** On the settled outcomes, the first pair of positions (2k, 2k+1) that
    holds a rejected promise decides the reason. *)
Lemma first_failing_pair_of_loop race (values : list Response)
  (p q : result Response) (rest : list (result Response)) (e : error) :
  Nat.even (List.length values) = true ->
  (p = Rejected e -> is_rejected q = false ->
   runMultiplePromiseAllInLoop race (map Fulfilled values ++ p :: q :: rest)
   = Rejected e)
  /\ (is_rejected p = false -> q = Rejected e ->
      runMultiplePromiseAllInLoop race (map Fulfilled values ++ p :: q :: rest)
      = Rejected e)
  /\ (forall e', p = Rejected e' -> q = Rejected e ->
                 runMultiplePromiseAllInLoop race
                   (map Fulfilled values ++ p :: q :: rest)
                 = Rejected (if race (List.length values) then e else e'))
  /\ (p = Rejected e ->
      runMultiplePromiseAllInLoop race (map Fulfilled values ++ [p])
      = Rejected e).
Proof.
  intros Heven.
  assert (Hstep : forall tail,
             tail <> [] ->
             runMultiplePromiseAllInLoop race (map Fulfilled values ++ tail)
             = match promise_all_pair (race (List.length values))
                       (nth_error tail 0) (nth_error tail 1) with
               | Fulfilled both =>
                   loop race (map Fulfilled values ++ tail)
                     (List.length values + 2) (batches_of values ++ [both])
               | Rejected r => Rejected r
               end).
  { intros tail Htail. unfold runMultiplePromiseAllInLoop.
    pose proof (loop_over_fulfilled race values Heven [] tail []) as Hover.
    cbn [app List.length Nat.add] in Hover. rewrite Hover, loop_step.
    destruct (lt_dec (List.length values)
                (List.length (map Fulfilled values ++ tail))) as [_|Hge].
    - rewrite !nth_error_app2 by (rewrite length_map; lia).
      rewrite length_map.
      replace (List.length values - List.length values)%nat with 0%nat
        by lia.
      replace (List.length values + 1 - List.length values)%nat with 1%nat
        by lia.
      reflexivity.
    - elim Hge. rewrite length_app, length_map.
      destruct tail; [now elim Htail | simpl; lia]. }
  repeat split.
  - intros -> Hq. rewrite Hstep by discriminate. simpl.
    now destruct q.
  - intros Hp ->. rewrite Hstep by discriminate. simpl.
    now destruct p.
  - intros e' -> ->. now rewrite Hstep by discriminate.
  - intros ->. now rewrite Hstep by discriminate.
Qed.

(** ** The address of the webhooks request *)

Lemma append_assoc (a b c : string) : (a ++ b) ++ c = a ++ b ++ c.
Proof. induction a as [|x a IH]; simpl; [reflexivity | now rewrite IH]. Qed.

Lemma length_append (a b : string) :
  String.length (a ++ b) = (String.length a + String.length b)%nat.
Proof. induction a as [|x a IH]; simpl; [reflexivity | now rewrite IH]. Qed.

Lemma append_cancel_l (a x y : string) : a ++ x = a ++ y -> x = y.
Proof.
  induction a as [|c a IH]; simpl; [easy|]. intros [= H]. now apply IH.
Qed.

Lemma append_cancel_r (x y a : string) : x ++ a = y ++ a -> x = y.
Proof.
  revert y. induction x as [|c x IH]; intros [|d y] H; simpl in H.
  - reflexivity.
  - apply (f_equal String.length) in H. simpl in H.
    rewrite length_append in H. lia.
  - apply (f_equal String.length) in H. simpl in H.
    rewrite length_append in H. lia.
  - injection H as -> H. f_equal. now apply IH.
Qed.

(** Two strings cut at their first ['/'] agree in both parts. *)
Lemma split_first_slash (a a' x x' : string) :
  no_slash a = true -> no_slash a' = true ->
  a ++ String "/" x = a' ++ String "/" x' ->
  a = a' /\ x = x'.
Proof.
  revert a'. induction a as [|c a IH]; intros [|c' a'] Ha Ha' H;
    simpl in *.
  - now injection H as ->.
  - injection H as <- _. discriminate Ha'.
  - injection H as -> _. discriminate Ha.
  - injection H as -> H.
    apply andb_true_iff in Ha as [_ Ha].
    apply andb_true_iff in Ha' as [_ Ha'].
    destruct (IH a' Ha Ha' H) as [-> ->]. now split.
Qed.

(** X15: the URL of the webhooks request tells two repositories apart as
    long as the owner arguments contain no ['/']: equal URLs then mean equal
    owners and equal names.  The arguments are not escaped, so an owner
    with a ['/'] can address the repository of another owner. *)
Theorem hooks_url_injective (owner repoName owner' repoName' : string) :
  no_slash owner = true ->
  no_slash owner' = true ->
  hooks_url owner repoName = hooks_url owner' repoName' ->
  owner = owner' /\ repoName = repoName'.
Proof.
  unfold hooks_url. intros Ho Ho' H.
  apply append_cancel_l in H.
  apply split_first_slash in H as [-> H]; try assumption.
  split; [reflexivity|]. now apply append_cancel_r in H.
Qed.

Lemma hooks_url_injective_witness :
  no_slash "alice" = true
  /\ hooks_url "alice" "app" = "https://api.github.com/repos/alice/app/hooks"
  /\ ("alice" = "alice" /\ "app" = "app")
  /\ hooks_url "alice/app" "hooks" = hooks_url "alice" "app/hooks".
Proof.
  split; [reflexivity|]. split; [reflexivity|].
  split; [|reflexivity].
  exact (hooks_url_injective "alice" "app" "alice" "app" eq_refl eq_refl
           eq_refl).
Defined.

(** ** Rejections in the time of the event loop *)

Lemma loop_in_time_step settles_at promises i now results :
  loop_in_time settles_at promises i now results
  = if lt_dec i (List.length promises) then
      if rejected_before settles_at promises i now then ProcessEnds
      else
        match promise_all_pair (second_settles_first settles_at i)
                (nth_error promises i) (nth_error promises (i + 1)) with
        | Fulfilled both =>
            loop_in_time settles_at promises (i + 2)
              (pair_fulfilled_at settles_at promises i now)
              (results ++ [both])%list
        | Rejected e =>
            if rejected_before settles_at promises (i + 2)
                 (pair_rejected_at settles_at promises i)
            then ProcessEnds
            else Settles (Rejected e)
        end
    else Settles (Fulfilled results).
Proof.
  rewrite loop_in_time_equation_1.
  destruct (lt_dec i (List.length promises)); reflexivity.
Qed.

(** When the process does not end, the loop settles with what it gives on
    the settled outcomes, the order inside a pair read off the instants. *)
Lemma loop_in_time_settles settles_at (promises : list (result Response)) :
  forall n i now results r,
    (List.length promises - i <= n)%nat ->
    loop_in_time settles_at promises i now results = Settles r ->
    r = loop (second_settles_first settles_at) promises i results.
Proof.
  induction n as [|n IH]; intros i now results r Hn;
    rewrite loop_in_time_step, loop_step;
    destruct (lt_dec i (List.length promises)) as [Hlt|Hge]; try lia;
    try (now intros [= <-]).
  destruct (rejected_before settles_at promises i now); [discriminate|].
  destruct (promise_all_pair (second_settles_first settles_at i)
              (nth_error promises i) (nth_error promises (i + 1)))
    as [both|e].
  - apply IH. lia.
  - destruct (rejected_before settles_at promises (i + 2)
                (pair_rejected_at settles_at promises i));
      [discriminate | now intros [= <-]].
Qed.

Lemma rejected_before_zero settles_at promises from :
  rejected_before settles_at promises from 0 = false.
Proof.
  unfold rejected_before.
  induction (seq from (List.length promises - from)) as [|j l IH];
    [reflexivity|].
  simpl. rewrite IH. now destruct (nth_error promises j) as [[v|e]|].
Qed.

Lemma rejected_before_past_the_end settles_at promises from instant :
  (List.length promises <= from)%nat ->
  rejected_before settles_at promises from instant = false.
Proof.
  intros H. unfold rejected_before.
  now replace (List.length promises - from)%nat with 0%nat by lia.
Qed.

Lemma rejected_before_true settles_at promises from instant j e :
  (from <= j)%nat ->
  nth_error promises j = Some (Rejected e) ->
  (settles_at j < instant)%nat ->
  rejected_before settles_at promises from instant = true.
Proof.
  intros Hfrom Hj Ht. unfold rejected_before.
  apply existsb_exists. exists j. split.
  - apply in_seq.
    assert (j < List.length promises)%nat
      by (apply nth_error_Some; congruence).
    lia.
  - rewrite Hj. now apply Nat.ltb_lt.
Qed.

Lemma pair_rejected_at_cases settles_at promises i :
  pair_rejected_at settles_at promises i = settles_at i
  \/ pair_rejected_at settles_at promises i = settles_at (i + 1)%nat.
Proof.
  unfold pair_rejected_at.
  destruct (nth_error promises i) as [[v|e]|],
    (nth_error promises (i + 1)) as [[v'|e']|]; auto.
  destruct (Nat.min_spec (settles_at i) (settles_at (i + 1)%nat)) as [[_ ->]|[_ ->]];
    auto.
Qed.

(** C2: a rejected chain fails the whole call with its error only when its
    pair is the one awaited.  A chain at position 2 or later that rejects
    before the two chains of the first pair have settled has no handler:
    the process ends, and the call does not fail with that error.  With at
    most two names, which form the pair awaited from the start, a rejected
    chain does make the call reject with the reason of a rejected chain. *)
Theorem later_rejection_ends_the_process settles_at up
  (repoNames : list string) (fileType owner : string) :
  (forall j X,
      nth_error repoNames j = Some X ->
      (2 <= j)%nat ->
      is_rejected (fetchSingleRepositoryData up X fileType owner) = true ->
      (settles_at j < settles_at 0)%nat ->
      (settles_at j < settles_at 1)%nat ->
      fetchRepositoriesDetails_in_time settles_at up repoNames fileType owner
      = ProcessEnds)
  /\ ((List.length repoNames <= 2)%nat ->
      forall X,
        In X repoNames ->
        is_rejected (fetchSingleRepositoryData up X fileType owner) = true ->
        exists e Y,
          fetchRepositoriesDetails_in_time settles_at up repoNames fileType
            owner = Settles (Rejected e)
          /\ In Y repoNames
          /\ fetchSingleRepositoryData up Y fileType owner = Rejected e).
Proof.
  unfold fetchRepositoriesDetails_in_time, runMultiplePromiseAllInLoop_in_time.
  set (promises := start_all up repoNames fileType owner).
  assert (Hlen : List.length promises = List.length repoNames)
    by apply length_map.
  split.
  - intros j X Hj Hge Hrej H0 H1.
    destruct (fetchSingleRepositoryData up X fileType owner) as [d|e] eqn:HX;
      [discriminate Hrej|].
    assert (Hpj : nth_error promises j = Some (Rejected e)).
    { unfold promises, start_all. rewrite nth_error_map, Hj. simpl.
      now rewrite HX. }
    assert (Hjlen : (j < List.length promises)%nat)
      by (apply nth_error_Some; congruence).
    rewrite loop_in_time_step.
    destruct (lt_dec 0 (List.length promises)) as [_|Hno]; [|lia].
    rewrite rejected_before_zero.
    destruct (promise_all_pair (second_settles_first settles_at 0)
                (nth_error promises 0) (nth_error promises (0 + 1)))
      as [both|e'].
    + rewrite loop_in_time_step.
      destruct (lt_dec (0 + 2) (List.length promises)) as [_|Hno];
        [|simpl in Hno; lia].
      assert (Hrb : rejected_before settles_at promises (0 + 2)
                      (pair_fulfilled_at settles_at promises 0 0) = true).
      { apply rejected_before_true with (j := j) (e := e);
          [simpl; lia | exact Hpj |].
        unfold pair_fulfilled_at.
        destruct (nth_error promises (0 + 1)) eqn:H1'; [simpl; lia|].
        apply nth_error_None in H1'. simpl in H1'. lia. }
      now rewrite Hrb.
    + assert (Hrb : rejected_before settles_at promises (0 + 2)
                      (pair_rejected_at settles_at promises 0) = true).
      { apply rejected_before_true with (j := j) (e := e);
          [simpl; lia | exact Hpj |].
        destruct (pair_rejected_at_cases settles_at promises 0) as [->| ->];
          simpl; lia. }
      now rewrite Hrb.
  - intros Hshort X Hin Hrej.
    assert (Hex : Exists (fun p => is_rejected p = true) promises).
    { apply Exists_exists.
      exists (fetchSingleRepositoryData up X fileType owner).
      split; [|exact Hrej]. unfold promises, start_all.
      apply in_map_iff. now exists X. }
    destruct (loop_rejected (second_settles_first settles_at) promises
                (List.length promises) 0 []) as (e & He & Hine);
      [lia | exact Hex |].
    rewrite loop_step in He. rewrite loop_in_time_step.
    destruct (lt_dec 0 (List.length promises)) as [_|Hno];
      [|discriminate He].
    rewrite rejected_before_zero.
    destruct (promise_all_pair (second_settles_first settles_at 0)
                (nth_error promises 0) (nth_error promises (0 + 1)))
      as [both|e'].
    + rewrite loop_step in He.
      destruct (lt_dec (0 + 2) (List.length promises)) as [Hlong|_];
        [simpl in Hlong; lia | discriminate He].
    + injection He as ->.
      rewrite rejected_before_past_the_end by (simpl; lia).
      unfold promises, start_all in Hine.
      apply in_map_iff in Hine as (Y & HY & HinY).
      now exists e, Y.
Qed.

Lemma later_rejection_ends_the_process_witness :
  let up := Sample.github 3 in
  fetchRepositoriesDetails_in_time (instants [5; 6; 1]%nat) up
    ["a"; "b"; "missing"] "yml" "bob" = ProcessEnds
  /\ exists e Y,
      fetchRepositoriesDetails_in_time (instants [5; 6; 1]%nat) up
        ["a"; "missing"] "yml" "bob" = Settles (Rejected e)
      /\ In Y ["a"; "missing"]
      /\ fetchSingleRepositoryData up Y "yml" "bob" = Rejected e.
Proof.
  intros up. split.
  - apply (proj1 (later_rejection_ends_the_process (instants [5; 6; 1]%nat) up
                    ["a"; "b"; "missing"] "yml" "bob") 2%nat "missing");
      try reflexivity; vm_compute; lia.
  - apply (proj2 (later_rejection_ends_the_process (instants [5; 6; 1]%nat) up
                    ["a"; "missing"] "yml" "bob") (le_n 2) "missing");
      [simpl; auto | reflexivity].
Defined.

(** X14: whenever the loop settles after an even number of fulfilled
    promises, the next pair of positions decides the reason of a rejection,
    whatever the later promises did: a single rejected promise of that pair
    gives its reason, and of two rejected promises it is the one that
    settled first, which may be the one at the higher position. *)
Theorem first_failing_pair_decides settles_at (values : list Response)
  (tail : list (result Response)) (e : error)
  (r : result (list (list (option Response)))) :
  Nat.even (List.length values) = true ->
  runMultiplePromiseAllInLoop_in_time settles_at (map Fulfilled values ++ tail)
  = Settles r ->
  (nth_error tail 0 = Some (Rejected e) ->
   (forall e2, nth_error tail 1 <> Some (Rejected e2)) ->
   r = Rejected e)
  /\ (forall a,
         nth_error tail 0 = Some (Fulfilled a) ->
         nth_error tail 1 = Some (Rejected e) ->
         r = Rejected e)
  /\ (forall e',
         nth_error tail 0 = Some (Rejected e') ->
         nth_error tail 1 = Some (Rejected e) ->
         r = Rejected
               (if (settles_at (List.length values + 1)
                    <? settles_at (List.length values))%nat
                then e else e')).
Proof.
  intros Heven Hr.
  apply (loop_in_time_settles settles_at _
           (List.length (map Fulfilled values ++ tail))) in Hr; [|lia].
  fold (runMultiplePromiseAllInLoop (second_settles_first settles_at)
          (map Fulfilled values ++ tail)) in Hr.
  subst r.
  destruct tail as [|p [|q rest]]; simpl; repeat split;
    try discriminate; try (intros; discriminate).
  - intros [= ->] _.
    destruct (first_failing_pair_of_loop (second_settles_first settles_at)
                values (Rejected e) (Rejected e) [] e Heven)
      as (_ & _ & _ & Hlast).
    now apply Hlast.
  - intros [= ->] Hq.
    destruct (first_failing_pair_of_loop (second_settles_first settles_at)
                values (Rejected e) q rest e Heven) as (Hfirst & _).
    apply Hfirst; [reflexivity|].
    destruct q as [v|e2]; [reflexivity | now elim (Hq e2)].
  - intros a [= ->] [= ->].
    destruct (first_failing_pair_of_loop (second_settles_first settles_at)
                values (Fulfilled a) (Rejected e) rest e Heven)
      as (_ & Hsecond & _).
    now apply Hsecond.
  - intros e' [= ->] [= ->].
    destruct (first_failing_pair_of_loop (second_settles_first settles_at)
                values (Rejected e') (Rejected e) rest e Heven)
      as (_ & _ & Hboth & _).
    now apply Hboth.
Qed.

Lemma first_failing_pair_decides_witness :
  let promises :=
    start_all (Sample.github 3) ["a"; "b"; "missing"; "gone"; "missing"]
      "yml" "bob" in
  Nat.even (List.length (firstn 2 Sample.responses_abc)) = true
  /\ runMultiplePromiseAllInLoop_in_time (instants [1; 2; 5; 4; 9]%nat)
       promises
     = Settles (Rejected (TypeError "repository.object"))
  /\ runMultiplePromiseAllInLoop_in_time (instants [1; 2; 4; 5; 9]%nat)
       promises
     = Settles (Rejected (UpstreamError "NOT_FOUND")).
Proof.
  intros promises.
  pose (values := firstn 2 Sample.responses_abc).
  pose (tail := [@Rejected Response (UpstreamError "NOT_FOUND");
                 Rejected (TypeError "repository.object");
                 Rejected (UpstreamError "NOT_FOUND")]).
  split; [reflexivity|]. split.
  - destruct (runMultiplePromiseAllInLoop_in_time
                (instants [1; 2; 5; 4; 9]%nat) promises) as [r|] eqn:Hr;
      [|vm_compute in Hr; discriminate Hr].
    destruct (first_failing_pair_decides (instants [1; 2; 5; 4; 9]%nat)
                values tail (TypeError "repository.object") r eq_refl Hr)
      as (_ & _ & Hboth).
    now rewrite (Hboth (UpstreamError "NOT_FOUND") eq_refl eq_refl).
  - destruct (runMultiplePromiseAllInLoop_in_time
                (instants [1; 2; 4; 5; 9]%nat) promises) as [r|] eqn:Hr;
      [|vm_compute in Hr; discriminate Hr].
    destruct (first_failing_pair_decides (instants [1; 2; 4; 5; 9]%nat)
                values tail (TypeError "repository.object") r eq_refl Hr)
      as (_ & _ & Hboth).
    now rewrite (Hboth (UpstreamError "NOT_FOUND") eq_refl eq_refl).
Defined.

(** ** The first matching file *)

(** C5: for entries as the tree query returns them, where no file has an
    empty path, the path the walk records is that of the first file in
    depth-first pre-order whose extension equals [fileType], whatever
    matches after it; the content fetch targets the recorded path.  When no
    file matches, that is the empty path, and, the two queries reading one
    state of the service, [fileContent] is absent. *)
Theorem first_match_selected up resolve (X fileType owner : string)
  (es : list TreeEntry) :
  Forall (fun f => path f <> "") (preorder_files es) ->
  one_snapshot up resolve ->
  let chosen := snd (count_entries fileType es "") in
  chosen = findFirstPathOfType es fileType
  /\ (forall before f after,
         preorder_files es = (before ++ f :: after)%list ->
         Forall (fun g => matches fileType g = false) before ->
         matches fileType f = true ->
         chosen = path f)
  /\ (forall repo d,
         file_details up X = Fulfilled (Some repo) ->
         repo_object repo = Some (Object (Some es)) ->
         fetchSingleRepositoryData up X fileType owner = Fulfilled d ->
         (exists content,
             file_content up X chosen = Fulfilled content
             /\ content_text content = Fulfilled (contentOfSpecificFile d))
         /\ (find (matches fileType) (preorder_files es) = None ->
             chosen = "" /\ contentOfSpecificFile d = None)).
Proof.
  intros Hpaths Hsnap chosen.
  destruct (first_recordable_match up X fileType owner es)
    as (_ & _ & Hfirst & Hnone & Hchain).
  fold chosen in Hfirst, Hnone, Hchain.
  specialize (Hfirst Hpaths).
  split; [exact Hfirst|]. split.
  - intros before f after Hsplit Hbefore Hf.
    rewrite Hfirst. unfold findFirstPathOfType.
    now rewrite Hsplit, (find_first _ _ _ _ Hbefore Hf).
  - intros repo d Hdetails Hobj Hd.
    destruct (Hchain repo d Hdetails Hobj Hd) as [(content & Hc & Ht) _].
    split; [now exists content|].
    intros Hno. specialize (Hnone Hno).
    split; [exact Hnone|]. rewrite Hnone in Hc.
    destruct content as [c|]; [|discriminate Ht].
    destruct (Hsnap X) as [Htree Hblob].
    specialize (Htree repo Hdetails). specialize (Hblob "" c Hc).
    change (content_expression "") with tree_expression in Hblob.
    rewrite Hobj in Htree.
    destruct (resolve X tree_expression) as [[es0|t|]|];
      try discriminate Htree.
    simpl in Ht, Hblob. rewrite Hblob in Ht. now injection Ht as <-.
Qed.

Lemma first_match_selected_witness :
  let up := Sample.github 3 in
  Forall (fun f => path f <> "") (preorder_files Sample.tree)
  /\ one_snapshot up sample_resolve
  /\ snd (count_entries "yml" Sample.tree "") = "src/ci/build.yml"
  /\ snd (count_entries "toml" Sample.tree "") = ""
  /\ match fetchSingleRepositoryData up "a" "toml" "bob" with
     | Fulfilled d => contentOfSpecificFile d = None
     | Rejected _ => False
     end.
Proof.
  intros up.
  assert (Hpaths : Forall (fun f => path f <> "")
                     (preorder_files Sample.tree))
    by (repeat constructor; discriminate).
  pose proof (sample_one_snapshot 3) as Hsnap.
  destruct (first_match_selected up sample_resolve "a" "yml" "bob"
              Sample.tree Hpaths Hsnap) as (Hyml & _ & _).
  destruct (first_match_selected up sample_resolve "a" "toml" "bob"
              Sample.tree Hpaths Hsnap) as (_ & _ & Hchain).
  split; [exact Hpaths|]. split; [exact Hsnap|].
  split; [exact Hyml|].
  destruct (fetchSingleRepositoryData up "a" "toml" "bob") as [d|e] eqn:Hd;
    [|discriminate Hd].
  destruct (Hchain (Sample.repository "a" (Some (Object (Some Sample.tree))))
              d eq_refl eq_refl eq_refl) as [_ Hnone].
  destruct (Hnone eq_refl) as (Hempty & Habsent).
  split; [exact Hempty | exact Habsent].
Defined.
